(** * EmailValidator: the per-address validation pipeline

    A shallow embedding of [validateEmails] from
    [src/components/EmailValidator.tsx].  The React component keeps three
    pieces of state ([emails], [results], [isValidating]); the handler
    [validateEmails] splits the text area's content into lines, drops the
    lines whose trimmed form is empty, and runs the checks of
    [utils/validators] on every remaining line, one line after the other.

    The validators module is imported, not defined, by the component: its
    eight functions are taken as parameters ([Validators]).  The seven
    awaited checks talk to the network, so they are state transformers over
    an abstract world [W]; they are taken to resolve, as their contract
    says, never to reject.  Every call and every settled promise is
    recorded in a trace, which carries the order of the calls and their
    arguments.  What the handler makes of the checks is stated on the
    checks themselves: the fields of a record as the answers of the
    checks, the world the handler leaves as the world the checks leave,
    and the number of checks applied as the count kept by checks that
    count their own applications ([instrument]).  The order in which the
    six promises of [Promise.all] settle is chosen by the run time
    ([scheduler]), not by the handler.

    What the handler shows between [setIsValidating(true)] and the final
    [setResults]/[setIsValidating(false)] is rendering and is left out: the
    embedding gives the state of the component when the handler is done. *)

From Stdlib Require Import String Ascii.
From Stdlib Require Import List NArith Arith Lia Bool Permutation.
Import ListNotations.
Local Open Scope string_scope.
Local Open Scope list_scope.

Set Implicit Arguments.

(** ** JavaScript strings *)

Module JS.

(** A JavaScript string is a sequence of UTF-16 code units. *)
Definition code_unit := N.
Definition jsstring := list code_unit.

(** ASCII literals, for readable examples. *)
Fixpoint of_string (s : string) : jsstring :=
  match s with
  | EmptyString => []
  | String c s' => N_of_ascii c :: of_string s'
  end.

Definition LF : code_unit := 10%N.
Definition AT : code_unit := 64%N.

(** [WhiteSpace] and [LineTerminator] of ECMA-262: what
    [String.prototype.trim] strips.  Every such code point lies in the
    basic plane, so the test is per code unit. *)
Definition is_white_space (c : code_unit) : bool :=
  ((c =? 9) || (c =? 10) || (c =? 11) || (c =? 12) || (c =? 13)
   || (c =? 32) || (c =? 160) || (c =? 5760)
   || ((8192 <=? c) && (c <=? 8202))
   || (c =? 8232) || (c =? 8233) || (c =? 8239) || (c =? 8287)
   || (c =? 12288) || (c =? 65279))%N.

Fixpoint trimStart (s : jsstring) : jsstring :=
  match s with
  | [] => []
  | c :: s' => if is_white_space c then trimStart s' else s
  end.

Definition trimEnd (s : jsstring) : jsstring := rev (trimStart (rev s)).

(** [s.trim()] *)
Definition trim (s : jsstring) : jsstring := trimEnd (trimStart s).

(** [ToBoolean] on a string: the empty string is the only falsy one. *)
Definition truthy (s : jsstring) : bool :=
  match s with [] => false | _ :: _ => true end.

(** [s.split(sep)] for a separator of one code unit and no limit, as the
    pair of the first segment and the list of the following ones: the
    result array is never empty, the empty string splits into [[""]]. *)
Fixpoint split_segments (sep : code_unit) (s : jsstring)
  : jsstring * list jsstring :=
  match s with
  | [] => ([], [])
  | c :: s' =>
      let (seg, segs) := split_segments sep s' in
      if (c =? sep)%N then ([], seg :: segs) else (c :: seg, segs)
  end.

Definition split (sep : code_unit) (s : jsstring) : list jsstring :=
  let (seg, segs) := split_segments sep s in seg :: segs.

(** [a[i]]: reading past the end of an array gives [undefined]. *)
Definition index {A} (a : list A) (i : nat) : option A := nth_error a i.

End JS.
Import JS.

(** [lines [l1; l2; ...]] is the text [l1 \n l2 \n ...], for examples. *)
Fixpoint lines (ls : list string) : jsstring :=
  match ls with
  | [] => []
  | [l] => of_string l
  | l :: ls' => of_string l ++ LF :: lines ls'
  end.

(** ** The data model ([../types]) *)

Record ValidationResult := {
  email : jsstring;
  formatValid : bool;
  domainExists : bool;
  mxRecords : bool;
  spf : bool;
  dkim : bool;
  dmarc : bool;
  smtp : bool;
  blacklisted : bool
}.

(** The state of the component: the three [useState] cells. *)
Record Component := {
  emails : jsstring;
  results : list ValidationResult;
  isValidating : bool
}.

(** ** The validators and the trace of their use *)

(** The seven awaited checks of [utils/validators]. *)
Inductive check :=
| DomainExists | MXRecords | SPF | DKIM | DMARC | SMTP | Blacklists.

Definition check_eqb (a b : check) : bool :=
  match a, b with
  | DomainExists, DomainExists | MXRecords, MXRecords | SPF, SPF
  | DKIM, DKIM | DMARC, DMARC | SMTP, SMTP | Blacklists, Blacklists => true
  | _, _ => false
  end.

(** The argument of a check is [email.split('@')[1]], which is
    [undefined] ([None]) when the array has one element only. *)
Definition domain_arg := option jsstring.

(** [validateEmailFormat] is called synchronously and its result used as
    a boolean; the seven checks return promises of booleans and may do
    anything to the world before they settle. *)
Record Validators (W : Type) := {
  validateEmailFormat : jsstring -> bool;
  checkDomainExists : domain_arg -> W -> bool * W;
  checkMXRecords : domain_arg -> W -> bool * W;
  checkSPF : domain_arg -> W -> bool * W;
  checkDKIM : domain_arg -> W -> bool * W;
  checkDMARC : domain_arg -> W -> bool * W;
  checkSMTP : domain_arg -> W -> bool * W;
  checkBlacklists : domain_arg -> W -> bool * W
}.

Unset Implicit Arguments.

Definition run_check {W} (V : Validators W) (k : check)
  : domain_arg -> W -> bool * W :=
  match k with
  | DomainExists => checkDomainExists V
  | MXRecords => checkMXRecords V
  | SPF => checkSPF V
  | DKIM => checkDKIM V
  | DMARC => checkDMARC V
  | SMTP => checkSMTP V
  | Blacklists => checkBlacklists V
  end.

(** What an observer of the validators module sees. *)
Inductive event :=
| EFormat (e : jsstring)               (* validateEmailFormat(e) called *)
| ECall (k : check) (d : domain_arg)   (* check k called with d *)
| ESettle (k : check) (b : bool).      (* the promise of k resolved to b *)

Definition is_call (ev : event) : bool :=
  match ev with ECall _ _ => true | _ => false end.

Definition is_call_of (k : check) (ev : event) : bool :=
  match ev with ECall k' _ => check_eqb k k' | _ => false end.

(** The calls to the awaited (network) checks in a trace. *)
Definition network_calls (tr : list event) : list event := filter is_call tr.

Definition calls_of (k : check) (tr : list event) : nat :=
  length (filter (is_call_of k) tr).

(** ** A monad for the handler: world state and a trace *)

Definition M (W A : Type) : Type := W -> A * W * list event.

Definition ret {W A} (a : A) : M W A := fun w => (a, w, []).

Definition bind {W A B} (m : M W A) (f : A -> M W B) : M W B :=
  fun w =>
    let '(a, w1, t1) := m w in
    let '(b, w2, t2) := f a w1 in
    (b, w2, t1 ++ t2).

Definition tell {W} (t : list event) : M W unit := fun w => (tt, w, t).

Notation "x <- m ;; k" := (bind m (fun x => k))
  (at level 61, m at next level, right associativity).
Notation "m ;;; k" := (bind m (fun _ => k))
  (at level 61, right associativity).

Definition value {W A} (r : A * W * list event) : A := fst (fst r).
Definition world {W A} (r : A * W * list event) : W := snd (fst r).
Definition trace {W A} (r : A * W * list event) : list event := snd r.

(** ** [Promise.all] over the six checks *)

(** The array literal of lines 41-48, in the order of its elements: the
    order in which the six checks are called. *)
Definition fan_out : list check := [MXRecords; SPF; DKIM; DMARC; SMTP; Blacklists].

Definition insert_at {A} (n : nat) (a : A) (l : list A) : list A :=
  firstn n l ++ a :: skipn n l.

(** The promises settle in an order the program does not choose.  The
    run time's choice is a list of numbers, one per promise: how many of
    the promises created after this one settle before it.  Every list of
    numbers gives an order and every order is given by one. *)
Fixpoint completion_order (pending : list check) (choices : list nat)
  : list check :=
  match pending with
  | [] => []
  | k :: rest =>
      insert_at (hd 0 choices) k (completion_order rest (tl choices))
  end.

(** The value at the index of check [k] in the array [Promise.all]
    resolves to: the value the promise of [k] settled with. *)
Fixpoint settled_value (k : check) (out : list (check * bool)) : bool :=
  match out with
  | [] => false
  | (k', b) :: out' => if check_eqb k k' then b else settled_value k out'
  end.

(** ** Records and events the handler builds *)

Definition settle_event (p : check * bool) : event := ESettle (fst p) (snd p).

(** The field of the record that reports on a check. *)
Definition check_field (k : check) (r : ValidationResult) : bool :=
  match k with
  | DomainExists => domainExists r
  | MXRecords => mxRecords r
  | SPF => spf r
  | DKIM => dkim r
  | DMARC => dmarc r
  | SMTP => smtp r
  | Blacklists => blacklisted r
  end.

Definition skipped (e : jsstring) (fmt : bool) : ValidationResult :=
  {| email := e; formatValid := fmt; domainExists := false;
     mxRecords := false; spf := false; dkim := false;
     dmarc := false; smtp := false; blacklisted := false |}.

(** Line 14: the lines of the text area whose trimmed form is truthy. *)
Definition emailList (c : Component) : list jsstring :=
  filter (fun email => truthy (trim email)) (split LF (emails c)).

Section Pipeline.

Context {W : Type}.
Variable V : Validators W.
(** The run time's choice of a completion order, in a given world. *)
Variable scheduler : W -> list nat.

(** One promise settles: the check acts on the world and yields its
    boolean. *)
Definition settle_one (k : check) (d : domain_arg) : M W bool :=
  fun w => let (b, w') := run_check V k d w in (b, w', [ESettle k b]).

(** [await validators.check...(d)]: called, then awaited alone. *)
Definition await_check (k : check) (d : domain_arg) : M W bool :=
  tell [ECall k d] ;;; settle_one k d.

Fixpoint settle_all (d : domain_arg) (order : list check)
  : M W (list (check * bool)) :=
  match order with
  | [] => ret []
  | k :: order' =>
      b <- settle_one k d ;;
      out <- settle_all d order' ;;
      ret ((k, b) :: out)
  end.

(** [await Promise.all([checkMXRecords(d), ..., checkBlacklists(d)])]:
    the six calls are made in the order of the array, the promises
    settle in the order the run time chooses, and the result is read by
    index. *)
Definition promise_all (d : domain_arg) : M W (check -> bool) :=
  fun w =>
    (tell (map (fun k => ECall k d) fan_out) ;;;
     out <- settle_all d (completion_order fan_out (scheduler w)) ;;
     ret (fun k => settled_value k out)) w.

(** The body of the [for] loop, lines 18-73, as the record it pushes:
    every path through the body pushes exactly one. *)
Definition loop_body (email : jsstring) : M W ValidationResult :=
  let domain := index (split AT email) 1 in
  tell [EFormat email] ;;;
  let formatValid := validateEmailFormat V email in
  if formatValid then
    domainExists <- await_check DomainExists domain ;;
    if negb domainExists then
      ret {| email := email; formatValid := true; domainExists := false;
             mxRecords := false; spf := false; dkim := false;
             dmarc := false; smtp := false; blacklisted := false |}
    else
      r <- promise_all domain ;;
      ret {| email := email; formatValid := formatValid;
             domainExists := domainExists;
             mxRecords := r MXRecords; spf := r SPF; dkim := r DKIM;
             dmarc := r DMARC; smtp := r SMTP;
             blacklisted := r Blacklists |}
  else
    ret {| email := email; formatValid := formatValid;
           domainExists := false;
           mxRecords := false; spf := false; dkim := false;
           dmarc := false; smtp := false; blacklisted := false |}.

(** [for (const email of emailList) { ... validationResults.push(...) }] *)
Fixpoint for_of (emailList : list jsstring)
  (validationResults : list ValidationResult)
  : M W (list ValidationResult) :=
  match emailList with
  | [] => ret validationResults
  | email :: rest =>
      r <- loop_body email ;;
      for_of rest (validationResults ++ [r])
  end.

(** [validateEmails], lines 12-78, on the state of the component. *)
Definition validateEmails (c : Component) : M W Component :=
  validationResults <- for_of (emailList c) [] ;;
  ret {| emails := emails c; results := validationResults;
         isValidating := false |}.

End Pipeline.

(** ** Vocabulary of the statements *)

(** The spec's word for the lines that are dropped: blank, that is made
    of white space only (the empty line included). *)
Definition blank (l : jsstring) : bool := forallb is_white_space l.

(** The spec's reading of the domain: what follows the first [@]. *)
Fixpoint after_first_at (e : jsstring) : option jsstring :=
  match e with
  | [] => None
  | c :: e' => if (c =? AT)%N then Some e' else after_first_at e'
  end.

(** The part of a string before its first [@] (all of it if it has none). *)
Fixpoint before_at (s : jsstring) : jsstring :=
  match s with
  | [] => []
  | c :: s' => if (c =? AT)%N then [] else c :: before_at s'
  end.

(** The number of [@] in an address. *)
Definition count_at (e : jsstring) : nat := count_occ N.eq_dec e AT.

Definition contains_at (e : jsstring) : bool :=
  existsb (fun c => (c =? AT)%N) e.

(** The invariant of the data model: a record that fails the format check
    or the existence check has the six later fields false. *)
Definition short_circuited (r : ValidationResult) : Prop :=
  formatValid r = false \/ domainExists r = false ->
  mxRecords r = false /\ spf r = false /\ dkim r = false
  /\ dmarc r = false /\ smtp r = false /\ blacklisted r = false.

(** A check is stable when its answer depends on the domain alone, not on
    the state of the world it is asked in. *)
Definition stable {W} (V : Validators W) : Prop :=
  forall k d w w', fst (run_check V k d w) = fst (run_check V k d w').

(** The record for an address when the checks answer as in world [w0]. *)
Definition record_of {W} (V : Validators W) (w0 : W) (e : jsstring)
  : ValidationResult :=
  let d := index (split AT e) 1 in
  let answer k := fst (run_check V k d w0) in
  if validateEmailFormat V e then
    if answer DomainExists then
      {| email := e; formatValid := true; domainExists := true;
         mxRecords := answer MXRecords; spf := answer SPF;
         dkim := answer DKIM; dmarc := answer DMARC; smtp := answer SMTP;
         blacklisted := answer Blacklists |}
    else skipped e true
  else skipped e false.

(** ** Test doubles *)

(** Checks that answer from a table and leave the world alone. *)
Definition stable_validators {W : Type} (fmt : jsstring -> bool)
  (answer : check -> domain_arg -> bool) : Validators W :=
  {| validateEmailFormat := fmt;
     checkDomainExists := fun d w => (answer DomainExists d, w);
     checkMXRecords := fun d w => (answer MXRecords d, w);
     checkSPF := fun d w => (answer SPF d, w);
     checkDKIM := fun d w => (answer DKIM d, w);
     checkDMARC := fun d w => (answer DMARC d, w);
     checkSMTP := fun d w => (answer SMTP d, w);
     checkBlacklists := fun d w => (answer Blacklists d, w) |}.

Definition jsstring_eqb (a b : jsstring) : bool :=
  if list_eq_dec N.eq_dec a b then true else false.

(** The scenario of the test plan: a format checker that wants an [@],
    [example.com] exists and publishes everything but DKIM. *)
Definition demo_answer (k : check) (d : domain_arg) : bool :=
  match d with
  | Some s =>
      jsstring_eqb s (of_string "example.com")
      && negb (check_eqb k DKIM)
  | None => false
  end.

Definition demo : Validators unit := stable_validators contains_at demo_answer.

Definition demo_text : jsstring :=
  lines ["bad-address"; "user@example.com"; "   ";
         "user@nonexistent-domain-xyz.test"].

Definition run_demo (choices : list nat) : list ValidationResult :=
  results (value (validateEmails demo (fun _ => choices)
                    {| emails := demo_text; results := []; isValidating := false |} tt)).

(** A format checker that accepts everything, and checks that all say
    yes. *)
Definition accept_all : Validators unit :=
  stable_validators (fun _ => true) (fun _ _ => true).

(** Stable checks over a world that changes: it counts the checks that
    have settled. *)
Definition counting (fmt : jsstring -> bool)
  (answer : check -> domain_arg -> bool) : Validators nat :=
  {| validateEmailFormat := fmt;
     checkDomainExists := fun d n => (answer DomainExists d, S n);
     checkMXRecords := fun d n => (answer MXRecords d, S n);
     checkSPF := fun d n => (answer SPF d, S n);
     checkDKIM := fun d n => (answer DKIM d, S n);
     checkDMARC := fun d n => (answer DMARC d, S n);
     checkSMTP := fun d n => (answer SMTP d, S n);
     checkBlacklists := fun d n => (answer Blacklists d, S n) |}.

Definition fresh (text : jsstring) : Component :=
  {| emails := text; results := []; isValidating := false |}.

(** ** Vocabulary of the statements: what the checks do to the world *)

(** The world after the promises of the checks [ks], all called on [d],
    have settled one after the other, in the order of [ks], from [w]. *)
Fixpoint apply_checks {W} (V : Validators W) (d : domain_arg)
  (ks : list check) (w : W) : W :=
  match ks with
  | [] => w
  | k :: ks' => apply_checks V d ks' (snd (run_check V k d w))
  end.

(** A check that counts its own applications: it does to the world what
    the check does and adds one to a counter kept beside the world. *)
Definition counted {W} (f : domain_arg -> W -> bool * W)
  : domain_arg -> W * nat -> bool * (W * nat) :=
  fun d wn => let (b, w') := f d (fst wn) in (b, (w', S (snd wn))).

(** The validators [V] with every awaited check counted.  The counter is
    moved by the checks, not by the handler: it tells how many times the
    handler has applied a check, whatever the handler writes in its
    trace. *)
Definition instrument {W} (V : Validators W) : Validators (W * nat) :=
  {| validateEmailFormat := validateEmailFormat V;
     checkDomainExists := counted (checkDomainExists V);
     checkMXRecords := counted (checkMXRecords V);
     checkSPF := counted (checkSPF V);
     checkDKIM := counted (checkDKIM V);
     checkDMARC := counted (checkDMARC V);
     checkSMTP := counted (checkSMTP V);
     checkBlacklists := counted (checkBlacklists V) |}.

(** The run time chooses as before: it does not see the counter. *)
Definition lift_scheduler {W} (scheduler : W -> list nat)
  : W * nat -> list nat :=
  fun wn => scheduler (fst wn).

(** ** Further vocabulary: traces and texts *)

Definition is_format (ev : event) : bool :=
  match ev with EFormat _ => true | _ => false end.

(** The awaited checks a record stands for: none when the format was
    rejected, the existence check alone when the domain is missing, the
    existence check and the six of the fan-out otherwise. *)
Definition record_cost (r : ValidationResult) : nat :=
  if formatValid r then if domainExists r then 7 else 1 else 0.

(** [a.join(sep)] for a separator of one code unit. *)
Fixpoint join (sep : code_unit) (a : list jsstring) : jsstring :=
  match a with
  | [] => []
  | [s] => s
  | s :: a' => s ++ sep :: join sep a'
  end.

(** The number of newlines of a text. *)
Definition count_LF (s : jsstring) : nat := count_occ N.eq_dec s LF.

(** ** The page: [StatusIcon] and the returned JSX, lines 93-173 *)

(** The handlers the page wires to its controls. *)
Inductive handler :=
| HSetEmails          (* (e) => setEmails(e.target.value) *)
| HValidateEmails
| HDownloadResults.

Inductive attr :=
| className (s : string)
| value_attr (s : jsstring)
| placeholder (s : string)
| disabled (b : bool)
| onChange (h : handler)
| onClick (h : handler)
| key (i : nat).

(** A React element: an element with its props and children, or a text.
    The icons of [lucide-react] are elements with the name of their
    component. *)
#[warnings="-register-all"] Inductive node :=
| El (tag : string) (attrs : list attr) (children : list node)
| Text (s : jsstring).

(** [{cond && (<X/>)}]: [false] renders nothing. *)
Definition when (cond : bool) (n : node) : list node :=
  if cond then [n] else [].

(** [a.map((x, index) => f(x, index))] *)
Fixpoint map_index {A B} (f : A -> nat -> B) (index : nat) (a : list A)
  : list B :=
  match a with
  | [] => []
  | x :: a' => f x index :: map_index f (S index) a'
  end.

(** Lines 93-95. *)
Definition StatusIcon (status : bool) : node :=
  El "span"
     [className ("inline-block w-4 h-4 rounded-full "
                 ++ (if status then "bg-green-500" else "bg-red-500"))%string]
     [].

Definition th (label : string) : node :=
  El "th"
     [className "px-6 py-3 text-left text-xs font-medium text-gray-500 uppercase tracking-wider"]
     [Text (of_string label)].

Definition td_icon (status : bool) : node :=
  El "td" [className "px-6 py-4 whitespace-nowrap"] [StatusIcon status].

Definition td_text (s : jsstring) : node :=
  El "td" [className "px-6 py-4 whitespace-nowrap text-sm"] [Text s].

(** Lines 153-165: the row of one record. *)
Definition render_row (result : ValidationResult) (index : nat) : node :=
  El "tr" [key index]
     [El "td" [className "px-6 py-4 whitespace-nowrap text-sm text-gray-900"]
         [Text (email result)];
      td_icon (formatValid result);
      td_text (of_string (if domainExists result then "Registered" else "Available"));
      td_icon (mxRecords result);
      td_icon (spf result);
      td_icon (dkim result);
      td_icon (dmarc result);
      td_icon (smtp result);
      td_text (of_string (if blacklisted result then "Yes" else "No"))].

(** Lines 140-150: the row of column titles. *)
Definition header_row : node :=
  El "tr" []
     [th "Email"; th "Format"; th "Domain"; th "MX"; th "SPF";
      th "DKIM"; th "DMARC"; th "SMTP"; th "Blacklisted"].

(** Lines 137-168. *)
Definition render_table (results : list ValidationResult) : node :=
  El "div" [className "overflow-x-auto"]
     [El "table" [className "min-w-full divide-y divide-gray-200"]
         [El "thead" [className "bg-gray-50"] [header_row];
          El "tbody" [className "bg-white divide-y divide-gray-200"]
             (map_index render_row 0 results)]].

(** Lines 97-173: what the component returns. *)
Definition render (c : Component) : node :=
  El "div" [className "min-h-screen bg-gray-50 py-12 px-4"]
   [El "div" [className "max-w-7xl mx-auto"]
     [El "div" [className "bg-white rounded-lg shadow-xl p-6"]
       ([El "h1" [className "text-3xl font-bold text-gray-900 mb-8"]
            [Text (of_string "Email Validation System")];
         El "div" [className "mb-6"]
            [El "label" [className "block text-sm font-medium text-gray-700 mb-2"]
                [Text (of_string "Enter email addresses (one per line)")];
             El "textarea"
                [className "w-full h-40 px-3 py-2 border border-gray-300 rounded-md focus:outline-none focus:ring-2 focus:ring-blue-500";
                 value_attr (emails c);
                 onChange HSetEmails;
                 placeholder "example@domain.com"]
                []];
         El "div" [className "flex gap-4 mb-8"]
            (El "button"
                [onClick HValidateEmails;
                 disabled (isValidating c);
                 className "flex items-center gap-2 px-4 py-2 bg-blue-600 text-white rounded-md hover:bg-blue-700 disabled:bg-blue-400"]
                [if isValidating c
                 then El "RefreshCw" [className "animate-spin"] []
                 else El "Upload" [] [];
                 Text (of_string (if isValidating c then "Validating..."
                                  else "Validate Emails"))]
             :: when (0 <? length (results c))%nat
                  (El "button"
                      [onClick HDownloadResults;
                       className "flex items-center gap-2 px-4 py-2 bg-green-600 text-white rounded-md hover:bg-green-700"]
                      [El "Download" [] [];
                       Text (of_string "Download Results")]))]
        ++ when (0 <? length (results c))%nat (render_table (results c)))]].

(** Every element and text of a tree, the root first. *)
Fixpoint descendants (n : node) : list node :=
  n :: match n with
       | El _ _ children => flat_map descendants children
       | Text _ => []
       end.

Definition tag_is (t : string) (n : node) : bool :=
  match n with
  | El t' _ _ => String.eqb t t'
  | Text _ => false
  end.

Definition node_attrs (n : node) : list attr :=
  match n with El _ a _ => a | Text _ => [] end.

Definition node_children (n : node) : list node :=
  match n with El _ _ cs => cs | Text _ => [] end.

(** The elements of a page with a given tag, in document order. *)
Definition elements (t : string) (page : node) : list node :=
  filter (tag_is t) (descendants page).

(** [disabled={true}] on an element: it takes no click. *)
Definition is_disabled (n : node) : bool :=
  existsb (fun a => match a with disabled true => true | _ => false end)
          (node_attrs n).

(** The handlers a click on an element starts: those of its [onClick]
    props, unless the element is disabled. *)
Definition on_click (n : node) : list handler :=
  if is_disabled n then []
  else flat_map (fun a => match a with onClick h => [h] | _ => [] end)
                (node_attrs n).

(** The handlers a click on the page can start. *)
Definition clickable (page : node) : list handler :=
  flat_map on_click (descendants page).

Definition handler_eqb (a b : handler) : bool :=
  match a, b with
  | HSetEmails, HSetEmails | HValidateEmails, HValidateEmails
  | HDownloadResults, HDownloadResults => true
  | _, _ => false
  end.

(** Every prop of every element of a page. *)
Definition page_attrs (page : node) : list attr :=
  flat_map node_attrs (descendants page).

(** [n.children[k]], for reading a page. *)
Definition child (k : nat) (n : node) : node :=
  nth k (node_children n) (Text []).

(** * Properties *)

(** ** Runs of the embedding *)

Example split_lines_ex :
  split LF (lines ["a"; ""; "b "]) = map of_string ["a"; ""; "b "].
Proof. reflexivity. Qed.

Example split_empty_ex : split LF [] = [[]].
Proof. reflexivity. Qed.

Example split_at_ex :
  index (split AT (of_string "a@b@c")) 1 = Some (of_string "b").
Proof. reflexivity. Qed.

Example demo_results :
  map (fun r => (formatValid r, domainExists r, mxRecords r, dkim r, blacklisted r))
      (run_demo [3; 1; 4])
  = [(false, false, false, false, false);
     (true, true, true, false, true);
     (true, false, false, false, false)].
Proof. vm_compute. reflexivity. Qed.

Example completion_order_ex :
  completion_order fan_out [5; 0; 2; 1]
  = [SPF; SMTP; DMARC; DKIM; Blacklists; MXRecords].
Proof. reflexivity. Qed.

Example untrimmed_domain_ex :
  index (split AT (of_string " user@example.com ")) 1
  = Some (of_string "example.com ").
Proof. reflexivity. Qed.

(** ** Strings: [trim] and [split] *)

Lemma truthy_trimStart s : truthy (trimStart s) = negb (blank s).
Proof.
  induction s as [|c s IH]; simpl; [reflexivity|].
  destruct (is_white_space c) eqn:E; simpl; [exact IH | reflexivity].
Qed.

Lemma blank_trimStart s : blank (trimStart s) = blank s.
Proof.
  induction s as [|c s IH]; simpl; [reflexivity|].
  destruct (is_white_space c) eqn:E; simpl; [exact IH | now rewrite E].
Qed.

Lemma blank_rev s : blank (rev s) = blank s.
Proof.
  unfold blank. induction s as [|c s IH]; simpl; [reflexivity|].
  rewrite forallb_app, IH. simpl. rewrite andb_true_r. apply andb_comm.
Qed.

Lemma truthy_rev s : truthy (rev s) = truthy s.
Proof.
  destruct s as [|c s]; simpl; [reflexivity|].
  destruct (rev s); reflexivity.
Qed.

(** The filter of line 14 keeps exactly the lines that are not blank. *)
Lemma truthy_trim l : truthy (trim l) = negb (blank l).
Proof.
  unfold trim, trimEnd.
  now rewrite truthy_rev, truthy_trimStart, blank_rev, blank_trimStart.
Qed.

Lemma blank_false_iff l :
  blank l = false <-> exists c, In c l /\ is_white_space c = false.
Proof.
  unfold blank. split.
  - intros H. induction l as [|c l IH]; simpl in *; [discriminate|].
    destruct (is_white_space c) eqn:E.
    + destruct (IH H) as (c' & Hin & Hc'). exists c'. auto.
    + exists c. auto.
  - intros (c & Hin & Hc). destruct (forallb is_white_space l) eqn:E; [|reflexivity].
    rewrite forallb_forall in E. rewrite (E c Hin) in Hc. discriminate.
Qed.

Lemma split_segments_fst sep s :
  fst (split_segments sep s)
  = (fix upto (s : jsstring) : jsstring :=
       match s with
       | [] => []
       | c :: s' => if (c =? sep)%N then [] else c :: upto s'
       end) s.
Proof.
  induction s as [|c s IH]; simpl; [reflexivity|].
  destruct (split_segments sep s) as [seg segs]; simpl in *.
  destruct (c =? sep)%N; simpl; [reflexivity | now rewrite IH].
Qed.

Lemma before_at_split s : fst (split_segments AT s) = before_at s.
Proof.
  rewrite split_segments_fst.
  induction s as [|c s IH]; simpl; [reflexivity|].
  destruct (c =? AT)%N; [reflexivity | now rewrite IH].
Qed.

(** [email.split('@')[1]] is the segment between the first [@] and the
    next one (or the end), and [undefined] without an [@]. *)
Lemma domain_segment e :
  index (split AT e) 1 = option_map before_at (after_first_at e).
Proof.
  unfold split, index.
  induction e as [|c e IH]; simpl; [reflexivity|].
  destruct (split_segments AT e) as [seg segs] eqn:E.
  destruct (c =? AT)%N; simpl.
  - f_equal. rewrite <- before_at_split, E. reflexivity.
  - exact IH.
Qed.

Lemma before_at_no_at s : contains_at s = false -> before_at s = s.
Proof.
  unfold contains_at.
  induction s as [|c s IH]; simpl; [reflexivity|].
  destruct (c =? AT)%N; simpl; [discriminate|].
  intros H. now rewrite IH.
Qed.

Lemma after_first_at_none e :
  after_first_at e = None <-> contains_at e = false.
Proof.
  unfold contains_at.
  induction e as [|c e IH]; simpl; [tauto|].
  destruct (c =? AT)%N; simpl; [|exact IH].
  split; discriminate.
Qed.

Lemma count_at_zero e : count_at e = 0 <-> contains_at e = false.
Proof.
  unfold count_at, contains_at.
  induction e as [|c e IH]; simpl; [tauto|].
  destruct (N.eq_dec c AT) as [->|Hne].
  - rewrite N.eqb_refl. simpl. split; discriminate.
  - apply N.eqb_neq in Hne. rewrite Hne. simpl. exact IH.
Qed.

Lemma after_first_at_count e s :
  after_first_at e = Some s -> count_at e = S (count_at s).
Proof.
  unfold count_at.
  induction e as [|c e IH]; simpl; [discriminate|].
  destruct (N.eq_dec c AT) as [->|Hne].
  - rewrite N.eqb_refl. now intros [= ->].
  - apply N.eqb_neq in Hne. rewrite Hne. exact IH.
Qed.

(** With exactly one [@] the two readings of the domain agree. *)
Lemma domain_one_at e :
  count_at e = 1 -> index (split AT e) 1 = after_first_at e.
Proof.
  intros H1. rewrite domain_segment.
  destruct (after_first_at e) as [s|] eqn:E; simpl; [|reflexivity].
  apply after_first_at_count in E. rewrite H1 in E.
  injection E as E. symmetry in E. apply count_at_zero in E.
  now rewrite before_at_no_at.
Qed.

Lemma domain_undefined e :
  index (split AT e) 1 = None <-> contains_at e = false.
Proof.
  rewrite domain_segment, <- after_first_at_none.
  destruct (after_first_at e); simpl; split; congruence.
Qed.

(** ** The completion order and the values of [Promise.all] *)

Lemma check_eqb_eq a b : check_eqb a b = true <-> a = b.
Proof. destruct a, b; simpl; split; intros H; congruence. Qed.

Lemma check_eqb_refl a : check_eqb a a = true.
Proof. now apply check_eqb_eq. Qed.

Lemma insert_at_perm {A} n (a : A) l : Permutation (insert_at n a l) (a :: l).
Proof.
  unfold insert_at. symmetry.
  rewrite <- (firstn_skipn n l) at 1. apply Permutation_middle.
Qed.

(** Whatever the run time chooses, every promise settles, once. *)
Lemma completion_order_perm pending choices :
  Permutation (completion_order pending choices) pending.
Proof.
  revert choices. induction pending as [|k rest IH]; intros choices; simpl.
  - constructor.
  - rewrite insert_at_perm. now constructor.
Qed.

(** And every order in which the promises can settle is the run time's
    to choose. *)
Lemma completion_order_complete pending order :
  Permutation pending order ->
  exists choices, completion_order pending choices = order.
Proof.
  revert order. induction pending as [|k rest IH]; intros order HP.
  - apply Permutation_nil in HP. subst. now exists [].
  - assert (Hin : In k order) by (eapply Permutation_in; [exact HP | now left]).
    destruct (in_split k order Hin) as (l1 & l2 & ->).
    apply Permutation_cons_app_inv in HP.
    destruct (IH _ HP) as (choices & Hc).
    exists (length l1 :: choices). simpl. rewrite Hc. unfold insert_at.
    rewrite firstn_app, skipn_app, firstn_all, skipn_all, Nat.sub_diag.
    simpl. now rewrite app_nil_r.
Qed.

Lemma fan_out_NoDup : NoDup fan_out.
Proof.
  unfold fan_out.
  repeat (constructor; [simpl; intuition discriminate|]). constructor.
Qed.

Lemma settled_value_spec k b out :
  NoDup (map fst out) -> In k (map fst out) ->
  (In (k, b) out <-> settled_value k out = b).
Proof.
  induction out as [|[k' b'] out IH]; simpl; [tauto|].
  intros Hnd Hin. inversion Hnd as [|? ? Hnotin Hnd']; subst.
  destruct (check_eqb k k') eqn:E.
  - apply check_eqb_eq in E; subst k'. split.
    + intros [H|H]; [congruence|].
      exfalso. apply Hnotin. change k with (fst (k, b)). now apply in_map.
    + intros ->. now left.
  - assert (Hne : k' <> k).
    { intros ->. rewrite check_eqb_refl in E. discriminate. }
    destruct Hin as [Hin|Hin]; [contradiction|].
    rewrite <- (IH Hnd' Hin). split; [|tauto].
    intros [H|H]; [congruence | exact H].
Qed.

Section PipelineFacts.

Context {W : Type}.
Variable V : Validators W.
Variable scheduler : W -> list nat.

Lemma settle_all_spec d order w :
  let r := settle_all V d order w in
  map fst (value r) = order /\ trace r = map settle_event (value r).
Proof.
  revert w. induction order as [|k order IH]; intros w; simpl.
  - split; reflexivity.
  - unfold bind, settle_one, ret.
    destruct (run_check V k d w) as [b w1].
    specialize (IH w1). simpl in IH.
    destruct (settle_all V d order w1) as [[out w2] t] eqn:E.
    unfold value, trace in *. simpl in *. destruct IH as [IH1 IH2].
    rewrite IH1, IH2, app_nil_r. split; reflexivity.
Qed.

(** The three paths through the loop body, as equations. *)

Lemma loop_body_invalid e w :
  validateEmailFormat V e = false ->
  loop_body V scheduler e w = (skipped e false, w, [EFormat e]).
Proof.
  intros H. unfold loop_body. rewrite H. reflexivity.
Qed.

Lemma loop_body_no_domain e w w' :
  validateEmailFormat V e = true ->
  checkDomainExists V (index (split AT e) 1) w = (false, w') ->
  loop_body V scheduler e w
  = (skipped e true, w',
     [EFormat e; ECall DomainExists (index (split AT e) 1);
      ESettle DomainExists false]).
Proof.
  intros Hf Hd. unfold loop_body. rewrite Hf.
  cbv [bind await_check settle_one tell run_check].
  rewrite Hd. reflexivity.
Qed.

Lemma loop_body_exists e w w' :
  validateEmailFormat V e = true ->
  checkDomainExists V (index (split AT e) 1) w = (true, w') ->
  let d := index (split AT e) 1 in
  let s := settle_all V d (completion_order fan_out (scheduler w')) w' in
  loop_body V scheduler e w
  = ({| email := e; formatValid := true; domainExists := true;
        mxRecords := settled_value MXRecords (value s);
        spf := settled_value SPF (value s);
        dkim := settled_value DKIM (value s);
        dmarc := settled_value DMARC (value s);
        smtp := settled_value SMTP (value s);
        blacklisted := settled_value Blacklists (value s) |},
     world s,
     [EFormat e; ECall DomainExists d; ESettle DomainExists true]
       ++ map (fun k => ECall k d) fan_out
       ++ map settle_event (value s)).
Proof.
  intros Hf Hd d s. unfold loop_body. rewrite Hf.
  cbv [bind await_check tell promise_all ret].
  unfold settle_one at 1. cbv [run_check]. rewrite Hd.
  cbv [negb]. fold d. fold s.
  pose proof (settle_all_spec d (completion_order fan_out (scheduler w')) w')
    as [_ Ht].
  fold s in Ht. unfold value, world, trace in *.
  destruct s as [[out w2] t]. simpl in *. subst t.
  rewrite !app_nil_r. reflexivity.
Qed.

Lemma no_calls_in_settles k out :
  filter (is_call_of k) (map settle_event out) = [].
Proof. induction out as [|p out IH]; simpl; [reflexivity | exact IH]. Qed.

Lemma no_network_calls_in_settles out :
  network_calls (map settle_event out) = [].
Proof. induction out as [|p out IH]; simpl; [reflexivity | exact IH]. Qed.

Lemma network_calls_fan_out d :
  network_calls (map (fun k => ECall k d) fan_out)
  = map (fun k => ECall k d) fan_out.
Proof. reflexivity. Qed.

Lemma in_settles k b out :
  In (ESettle k b) (map settle_event out) <-> In (k, b) out.
Proof.
  rewrite in_map_iff. split.
  - intros ([k' b'] & Heq & Hin). unfold settle_event in Heq; simpl in Heq.
    now inversion Heq; subst.
  - intros Hin. now exists (k, b).
Qed.

Lemma settle_all_keys d choices w :
  let out := value (settle_all V d (completion_order fan_out choices) w) in
  NoDup (map fst out) /\ forall k, In k fan_out -> In k (map fst out).
Proof.
  intros out. subst out.
  destruct (settle_all_spec d (completion_order fan_out choices) w) as [-> _].
  pose proof (completion_order_perm fan_out choices) as P. split.
  - eapply Permutation_NoDup; [symmetry; exact P | exact fan_out_NoDup].
  - intros k Hk. eapply Permutation_in; [symmetry; exact P | exact Hk].
Qed.

(** The world after [settle_all] is the world the checks leave when
    applied in that order. *)
Lemma settle_all_world d order w :
  world (settle_all V d order w) = apply_checks V d order w.
Proof.
  revert w. induction order as [|k order IH]; intros w; [reflexivity|].
  simpl. unfold bind, settle_one, ret.
  destruct (run_check V k d w) as [b w1]. specialize (IH w1).
  destruct (settle_all V d order w1) as [[out w2] t].
  unfold world in *. simpl in *. exact IH.
Qed.

(** The value kept for a check is the answer it gave in the world left
    by the checks that settled before it. *)
Lemma settle_all_value_at d pre k post w :
  NoDup (pre ++ k :: post) ->
  settled_value k (value (settle_all V d (pre ++ k :: post) w))
  = fst (run_check V k d (apply_checks V d pre w)).
Proof.
  revert w. induction pre as [|k' pre IH]; intros w Hnd.
  - simpl. unfold bind, settle_one, ret.
    destruct (run_check V k d w) as [b w1].
    destruct (settle_all V d post w1) as [[out w2] t].
    unfold value. simpl. now rewrite check_eqb_refl.
  - simpl in Hnd. inversion Hnd as [|? ? Hnotin Hnd']; subst.
    simpl. unfold bind, settle_one, ret.
    destruct (run_check V k' d w) as [b w1] eqn:E.
    specialize (IH w1 Hnd').
    destruct (settle_all V d (pre ++ k :: post) w1) as [[out w2] t].
    unfold value in *. simpl in *.
    destruct (check_eqb k k') eqn:Ek; [|exact IH].
    apply check_eqb_eq in Ek. subst k'. exfalso. apply Hnotin.
    apply in_or_app. right. now left.
Qed.

(** On the path of lines 41-60: the world the records leave, and each
    field as the answer of its check. *)
Lemma fan_out_through_checks e w w' :
  validateEmailFormat V e = true ->
  checkDomainExists V (index (split AT e) 1) w = (true, w') ->
  let d := index (split AT e) 1 in
  let order := completion_order fan_out (scheduler w') in
  let r := loop_body V scheduler e w in
  world r = apply_checks V d order w'
  /\ forall k, In k fan_out ->
       exists pre post,
         order = pre ++ k :: post
         /\ check_field k (value r)
            = fst (run_check V k d (apply_checks V d pre w')).
Proof.
  intros Hf E d order r. subst r.
  rewrite (loop_body_exists e w w' Hf E). fold d. fold order.
  unfold world at 1, value at 1. cbn [fst snd].
  split; [apply settle_all_world|].
  intros k Hk.
  pose proof (completion_order_perm fan_out (scheduler w')) as P.
  fold order in P.
  assert (Hin : In k order)
    by (eapply Permutation_in; [symmetry; exact P | exact Hk]).
  destruct (in_split k order Hin) as (pre & post & Hsplit).
  exists pre, post. split; [exact Hsplit|].
  assert (Hnd : NoDup (pre ++ k :: post)).
  { rewrite <- Hsplit.
    eapply Permutation_NoDup; [symmetry; exact P | exact fan_out_NoDup]. }
  rewrite Hsplit, <- (settle_all_value_at d pre k post w' Hnd).
  unfold fan_out in Hk; simpl in Hk.
  destruct Hk as [<-|[<-|[<-|[<-|[<-|[<-|[]]]]]]]; reflexivity.
Qed.

(** Case analysis on membership in the fan-out. *)
Ltac fan_out_cases H :=
  unfold fan_out in H; simpl in H;
  destruct H as [<-|[<-|[<-|[<-|[<-|[<-|[]]]]]]].

(** C1. For an address that the format checker accepts and whose domain
    exists, each of the six checks of the fan-out (MX, SPF, DKIM, DMARC,
    SMTP, blacklist) is called exactly once, on the domain of the address:
    the world the handler leaves is the world after the existence check
    with the six checks applied to it, each once, in the order their
    promises settle.  The field of the record that reports on a check
    holds the boolean the check answered, in the world left by the checks
    that settled before it, and that boolean is the one its promise is
    seen to settle with.  This for every choice the run time makes for
    the order in which the six promises settle. *)
Theorem fan_out_called_once_and_reported e w :
  validateEmailFormat V e = true ->
  fst (checkDomainExists V (index (split AT e) 1) w) = true ->
  let d := index (split AT e) 1 in
  let w' := snd (checkDomainExists V d w) in
  let order := completion_order fan_out (scheduler w') in
  let r := loop_body V scheduler e w in
  Permutation order fan_out
  /\ world r = apply_checks V d order w'
  /\ forall k, In k fan_out ->
       calls_of k (trace r) = 1
       /\ In (ECall k d) (trace r)
       /\ (forall b, In (ESettle k b) (trace r) <-> check_field k (value r) = b)
       /\ exists pre post,
            order = pre ++ k :: post
            /\ check_field k (value r)
               = fst (run_check V k d (apply_checks V d pre w')).
Proof.
  intros Hf Hd d w0 order r.
  destruct (checkDomainExists V (index (split AT e) 1) w) as [b0 w'] eqn:E.
  simpl in Hd; subst b0.
  assert (Hw : w0 = w') by (subst w0 d; now rewrite E). 
  clearbody w0. subst w0.
  destruct (fan_out_through_checks e w w' Hf E) as [Hworld Hfields].
  split; [apply completion_order_perm|].
  split; [exact Hworld|].
  intros k Hk. specialize (Hfields k Hk). subst r.
  rewrite (loop_body_exists e w w' Hf E) in *.
  fold d in Hfields |- *.
  set (s := settle_all V d (completion_order fan_out (scheduler w')) w') in *.
  destruct (settle_all_keys d (scheduler w') w') as [Hnd Hin].
  fold s in Hnd, Hin. specialize (Hin k Hk).
  unfold trace, value at 1 2 3 4 5 6 7. cbn [fst snd].
  split; [|split; [|split]].
  - unfold calls_of. rewrite !filter_app, no_calls_in_settles, app_nil_r.
    fan_out_cases Hk; reflexivity.
  - apply in_or_app. right. apply in_or_app. left.
    apply (in_map (fun k => ECall k d)). exact Hk.
  - intros b.
    match goal with
    | |- _ <-> check_field k ?rec = b =>
        replace (check_field k rec) with (settled_value k (value s))
          by (fan_out_cases Hk; reflexivity)
    end.
    rewrite <- (settled_value_spec k b (value s) Hnd Hin).
    rewrite !in_app_iff, in_settles. split; [|tauto].
    intros [H|[H|H]]; [| |exact H].
    + simpl in H. destruct H as [H|[H|[H|[]]]]; try discriminate.
      injection H as <- _. simpl in Hk. intuition discriminate.
    + apply in_map_iff in H. destruct H as (k' & Heq & _). discriminate.
  - exact Hfields.
Qed.

(** Every check that is called for an address is called on
    [email.split('@')[1]]. *)
Lemma call_argument e w k d :
  In (ECall k d) (trace (loop_body V scheduler e w)) ->
  d = index (split AT e) 1.
Proof.
  destruct (validateEmailFormat V e) eqn:Hf.
  - destruct (checkDomainExists V (index (split AT e) 1) w) as [[|] w'] eqn:E.
    + rewrite (loop_body_exists e w _ Hf E). unfold trace. cbn [snd].
      rewrite !in_app_iff. intros [H|[H|H]].
      * cbn [In] in H. destruct H as [H|[H|[H|[]]]]; congruence.
      * apply in_map_iff in H. destruct H as (k' & Heq & _). congruence.
      * apply in_map_iff in H. destruct H as (p & Heq & _). discriminate.
    + rewrite (loop_body_no_domain e w _ Hf E). unfold trace. cbn [snd In].
      intros [H|[H|[H|[]]]]; congruence.
  - rewrite (loop_body_invalid e w Hf). unfold trace. cbn [snd In].
    intros [H|[]]. discriminate.
Qed.

(** C2. For an address that passes the format check and whose
    domain-existence check answers false, the record has formatValid true,
    domainExists false and the six other fields false; the existence check
    is the only call made, and none of the six checks of the fan-out is
    called: the world the handler leaves is the one the existence check
    leaves. *)
Theorem short_circuit_when_domain_missing e w :
  validateEmailFormat V e = true ->
  fst (checkDomainExists V (index (split AT e) 1) w) = false ->
  let r := loop_body V scheduler e w in
  value r = {| email := e; formatValid := true; domainExists := false;
               mxRecords := false; spf := false; dkim := false;
               dmarc := false; smtp := false; blacklisted := false |}
  /\ network_calls (trace r) = [ECall DomainExists (index (split AT e) 1)]
  /\ (forall k, In k fan_out -> calls_of k (trace r) = 0)
  /\ world r = snd (checkDomainExists V (index (split AT e) 1) w).
Proof.
  intros Hf Hd r. subst r.
  destruct (checkDomainExists V (index (split AT e) 1) w) as [b0 w'] eqn:E.
  simpl in Hd; subst b0.
  rewrite (loop_body_no_domain e w w' Hf E).
  repeat split. intros k Hk. fan_out_cases Hk; reflexivity.
Qed.

(** C3. For an address that the format checker rejects, the record has
    formatValid false and the seven other boolean fields false, no awaited
    check (domain existence, MX, SPF, DKIM, DMARC, SMTP, blacklist) is
    called, and the world is left as it was. *)
Theorem rejected_format_makes_no_call e w :
  validateEmailFormat V e = false ->
  let r := loop_body V scheduler e w in
  value r = {| email := e; formatValid := false; domainExists := false;
               mxRecords := false; spf := false; dkim := false;
               dmarc := false; smtp := false; blacklisted := false |}
  /\ network_calls (trace r) = []
  /\ (forall k, calls_of k (trace r) = 0)
  /\ world r = w.
Proof.
  intros Hf r. subst r. rewrite (loop_body_invalid e w Hf).
  repeat split.
Qed.

(** C9. Nothing in the handler guards the domain: for an address without
    an [@] that the injected format checker accepts, the existence check
    is called with an undefined domain, and so is every other check that
    gets called for that address.  The record and the world are what the
    checks make of the undefined domain: domainExists is the answer of
    the existence check on it, and when that answer is true the six
    checks of the fan-out are applied to it as well, each field being the
    answer of its check. *)
Theorem undefined_domain_reaches_checks e w :
  contains_at e = false ->
  validateEmailFormat V e = true ->
  let r := loop_body V scheduler e w in
  let w' := snd (checkDomainExists V None w) in
  let order := completion_order fan_out (scheduler w') in
  In (ECall DomainExists None) (trace r)
  /\ (forall k d, In (ECall k d) (trace r) -> d = None)
  /\ formatValid (value r) = true
  /\ domainExists (value r) = fst (checkDomainExists V None w)
  /\ world r = (if fst (checkDomainExists V None w)
                then apply_checks V None order w'
                else w')
  /\ (fst (checkDomainExists V None w) = true ->
      forall k, In k fan_out ->
      exists pre post,
        order = pre ++ k :: post
        /\ check_field k (value r)
           = fst (run_check V k None (apply_checks V None pre w'))).
Proof.
  intros Hat Hf r w0 order. subst r.
  apply domain_undefined in Hat.
  split.
  { rewrite <- Hat.
    destruct (checkDomainExists V (index (split AT e) 1) w) as [[|] w'] eqn:E.
    + rewrite (loop_body_exists e w _ Hf E). unfold trace. cbn [snd In app]. auto.
    + rewrite (loop_body_no_domain e w _ Hf E). unfold trace. cbn [snd In]. auto. }
  split.
  { intros k d H. apply call_argument in H. congruence. }
  subst order w0.
  destruct (checkDomainExists V None w) as [b w'] eqn:E. cbn [fst snd].
  rewrite <- Hat in E.
  destruct b.
  - destruct (fan_out_through_checks e w w' Hf E) as [Hworld Hfields].
    rewrite Hat in Hworld, Hfields.
    rewrite (loop_body_exists e w w' Hf E) in *.
    split; [reflexivity|].
    split; [reflexivity|].
    split; [exact Hworld | intros _; exact Hfields].
  - rewrite (loop_body_no_domain e w w' Hf E).
    repeat split. discriminate.
Qed.

(** The other direction: a format checker that rejects every address
    without an [@] is all it takes for every call to get a defined
    domain. *)
Lemma defined_domain_under_precondition :
  (forall e, contains_at e = false -> validateEmailFormat V e = false) ->
  forall e w k d, In (ECall k d) (trace (loop_body V scheduler e w)) ->
  exists s, d = Some s.
Proof.
  intros Hpre e w k d H.
  destruct (contains_at e) eqn:Hat.
  - apply call_argument in H.
    destruct d as [s|]; [now exists s|].
    symmetry in H. apply domain_undefined in H. congruence.
  - rewrite (loop_body_invalid e w (Hpre e Hat)) in H.
    unfold trace in H. simpl in H. destruct H as [H|[]]. discriminate.
Qed.

(** ** The loop and the handler *)

Lemma validateEmails_for_of c w :
  let r := validateEmails V scheduler c w in
  let f := for_of V scheduler (emailList c) [] w in
  results (value r) = value f /\ world r = world f /\ trace r = trace f
  /\ emails (value r) = emails c /\ isValidating (value r) = false.
Proof.
  unfold validateEmails, emailList, bind, ret, value, world, trace.
  destruct (for_of V scheduler _ [] w) as [[vr w1] t1]. simpl.
  rewrite app_nil_r. repeat split.
Qed.

(** The loop pushes one record per address, in order, each related to its
    address by whatever relates the loop body's record to it. *)
Lemma for_of_spec (R : jsstring -> ValidationResult -> Prop) :
  (forall e w, R e (value (loop_body V scheduler e w))) ->
  forall l acc w, exists rs,
    value (for_of V scheduler l acc w) = acc ++ rs /\ Forall2 R l rs.
Proof.
  intros HR l. induction l as [|e l IH]; intros acc w.
  - exists []. simpl. unfold ret, value. simpl. now rewrite app_nil_r.
  - simpl. unfold bind. specialize (HR e w).
    destruct (loop_body V scheduler e w) as [[r w1] t1].
    destruct (IH (acc ++ [r]) w1) as (rs & Hv & HF).
    destruct (for_of V scheduler l (acc ++ [r]) w1) as [[vr w2] t2].
    unfold value in *. simpl in *. subst vr.
    exists (r :: rs). rewrite <- app_assoc. split; [reflexivity|].
    now constructor.
Qed.

(** The trace of the loop contains the trace of each of its iterations. *)
Lemma for_of_trace l acc w e :
  In e l ->
  exists w', incl (trace (loop_body V scheduler e w'))
                  (trace (for_of V scheduler l acc w)).
Proof.
  revert acc w. induction l as [|e' l IH]; intros acc w Hin; [destruct Hin|].
  simpl. unfold bind.
  destruct (loop_body V scheduler e' w) as [[r w1] t1] eqn:E.
  destruct Hin as [->|Hin].
  - exists w. rewrite E.
    destruct (for_of V scheduler l (acc ++ [r]) w1) as [[vr w2] t2].
    unfold trace. simpl. now apply incl_appl, incl_refl.
  - destruct (IH (acc ++ [r]) w1 Hin) as (w' & Hincl). exists w'.
    destruct (for_of V scheduler l (acc ++ [r]) w1) as [[vr w2] t2].
    unfold trace in *. simpl in *. now apply incl_appr.
Qed.

Lemma Forall2_In_left {A B} (R : A -> B -> Prop) l rs a :
  Forall2 R l rs -> In a l -> exists b, In b rs /\ R a b.
Proof.
  induction 1 as [|x y l rs Hxy _ IH]; intros Hin; [destruct Hin|].
  destruct Hin as [->|Hin].
  - exists y. simpl. auto.
  - destruct (IH Hin) as (b & Hb & HR). exists b. simpl. auto.
Qed.

Lemma Forall2_Forall_right {A B} (P : B -> Prop) (l : list A) rs :
  Forall2 (fun _ b => P b) l rs -> Forall P rs.
Proof. induction 1; constructor; assumption. Qed.

Lemma Forall2_map_right {A B} (f : B -> A) (l : list A) rs :
  Forall2 (fun a b => f b = a) l rs -> map f rs = l.
Proof. induction 1; simpl; congruence. Qed.

(** The record says of which address it is, and what the format checker
    said of that address as it stands. *)
Lemma loop_body_email e w :
  email (value (loop_body V scheduler e w)) = e
  /\ formatValid (value (loop_body V scheduler e w)) = validateEmailFormat V e.
Proof.
  destruct (validateEmailFormat V e) eqn:Hf.
  - destruct (checkDomainExists V (index (split AT e) 1) w) as [[|] w'] eqn:E.
    + rewrite (loop_body_exists e w _ Hf E). split; reflexivity.
    + rewrite (loop_body_no_domain e w _ Hf E). split; reflexivity.
  - rewrite (loop_body_invalid e w Hf). split; reflexivity.
Qed.

Lemma loop_body_short_circuited e w :
  short_circuited (value (loop_body V scheduler e w)).
Proof.
  unfold short_circuited.
  destruct (validateEmailFormat V e) eqn:Hf.
  - destruct (checkDomainExists V (index (split AT e) 1) w) as [[|] w'] eqn:E.
    + rewrite (loop_body_exists e w _ Hf E). unfold value. simpl.
      intros [H|H]; discriminate.
    + rewrite (loop_body_no_domain e w _ Hf E). unfold value. simpl. tauto.
  - rewrite (loop_body_invalid e w Hf). unfold value. simpl. tauto.
Qed.

(** C4. Every record of every batch satisfies the invariant: if
    formatValid or domainExists is false then mxRecords, spf, dkim, dmarc,
    smtp and blacklisted are all false, whatever the injected checks do and
    whatever order their promises settle in. *)
Theorem every_record_short_circuited c w :
  Forall short_circuited (results (value (validateEmails V scheduler c w))).
Proof.
  destruct (validateEmails_for_of c w) as (-> & _).
  destruct (for_of_spec (fun _ r => short_circuited r)
              loop_body_short_circuited (emailList c) [] w) as (rs & -> & HF).
  simpl. eapply Forall2_Forall_right. exact HF.
Qed.

(** C5. The batch has exactly one record per line of the text that is not
    blank (not made of white space only), in the order of those lines: the
    email fields of the records, in order, are the non-blank lines, in
    order. *)
Theorem one_record_per_non_blank_line c w :
  map email (results (value (validateEmails V scheduler c w)))
  = filter (fun l => negb (blank l)) (split LF (emails c)).
Proof.
  destruct (validateEmails_for_of c w) as (-> & _).
  destruct (for_of_spec (fun e r => email r = e)
              (fun e w => proj1 (loop_body_email e w)) (emailList c) [] w)
    as (rs & -> & HF).
  simpl. rewrite (Forall2_map_right email _ _ HF). unfold emailList.
  apply filter_ext. intros l. apply truthy_trim.
Qed.

(** C10. A line with a character that is not white space is kept, and as
    it stands: it is the email field of a record of the batch, it is what
    the format checker is called on and decides about, and the domain the
    existence check gets is cut from it untrimmed. *)
Theorem lines_are_kept_untrimmed c w l :
  In l (split LF (emails c)) ->
  (exists ch, In ch l /\ is_white_space ch = false) ->
  let r := validateEmails V scheduler c w in
  (exists res, In res (results (value r))
               /\ email res = l
               /\ formatValid res = validateEmailFormat V l)
  /\ In (EFormat l) (trace r)
  /\ (validateEmailFormat V l = true ->
      In (ECall DomainExists (index (split AT l) 1)) (trace r)).
Proof.
  intros Hl Hch r. subst r.
  assert (Hin : In l (emailList c)).
  { unfold emailList. apply filter_In. split; [exact Hl|].
    rewrite truthy_trim. apply blank_false_iff in Hch. now rewrite Hch. }
  destruct (validateEmails_for_of c w) as (-> & _ & -> & _).
  split; [|split].
  - destruct (for_of_spec
                (fun e r => email r = e /\ formatValid r = validateEmailFormat V e)
                loop_body_email (emailList c) [] w) as (rs & -> & HF).
    simpl. destruct (Forall2_In_left _ _ _ l HF Hin) as (res & Hres & H1 & H2).
    now exists res.
  - destruct (for_of_trace (emailList c) [] w l Hin) as (w' & Hincl).
    apply Hincl.
    destruct (validateEmailFormat V l) eqn:Hf.
    + destruct (checkDomainExists V (index (split AT l) 1) w') as [[|] w1] eqn:E.
      * rewrite (loop_body_exists l w' _ Hf E). unfold trace. cbn [snd In app]. auto.
      * rewrite (loop_body_no_domain l w' _ Hf E). unfold trace. cbn [snd In]. auto.
    + rewrite (loop_body_invalid l w' Hf). unfold trace. cbn [snd In]. auto.
  - intros Hf.
    destruct (for_of_trace (emailList c) [] w l Hin) as (w' & Hincl).
    apply Hincl.
    destruct (checkDomainExists V (index (split AT l) 1) w') as [[|] w1] eqn:E.
    + rewrite (loop_body_exists l w' _ Hf E). unfold trace. cbn [snd In app]. auto.
    + rewrite (loop_body_no_domain l w' _ Hf E). unfold trace. cbn [snd In]. auto.
Qed.

End PipelineFacts.

(** ** Stable checks: the batch as a function of the text *)

Section Stability.

Context {W : Type}.
Variable V : Validators W.
Hypothesis V_stable : stable V.

Lemma settle_all_stable d order w w0 k :
  In k order ->
  settled_value k (value (settle_all V d order w)) = fst (run_check V k d w0).
Proof.
  revert w. induction order as [|k' order IH]; intros w Hin; [destruct Hin|].
  simpl. unfold bind, settle_one, ret.
  pose proof (V_stable k' d w w0) as Hst.
  destruct (run_check V k' d w) as [b w1]. simpl in Hst.
  specialize (IH w1).
  destruct (settle_all V d order w1) as [[out w2] t].
  unfold value in *. simpl in *.
  destruct (check_eqb k k') eqn:E.
  - apply check_eqb_eq in E. now subst k'.
  - destruct Hin as [->|Hin]; [|now apply IH].
    rewrite check_eqb_refl in E. discriminate.
Qed.

Lemma loop_body_stable scheduler e w w0 :
  value (loop_body V scheduler e w) = record_of V w0 e.
Proof.
  unfold record_of.
  destruct (validateEmailFormat V e) eqn:Hf.
  - pose proof (V_stable DomainExists (index (split AT e) 1) w w0) as Hst.
    cbn [run_check] in Hst. cbn [run_check]. rewrite <- Hst.
    destruct (checkDomainExists V (index (split AT e) 1) w) as [[|] w'] eqn:E.
    + rewrite (loop_body_exists V scheduler e w w' Hf E).
      unfold value at 1. cbn [fst].
      pose proof (fun k Hk =>
        settle_all_stable (index (split AT e) 1)
          (completion_order fan_out (scheduler w')) w' w0 k
          (Permutation_in k
             (Permutation_sym (completion_order_perm fan_out (scheduler w')))
             Hk)) as Hs.
      rewrite !Hs by (simpl; tauto). reflexivity.
    + rewrite (loop_body_no_domain V scheduler e w w' Hf E). reflexivity.
  - rewrite (loop_body_invalid V scheduler e w Hf). reflexivity.
Qed.

Lemma validateEmails_stable scheduler c w w0 :
  results (value (validateEmails V scheduler c w))
  = map (record_of V w0) (emailList c).
Proof.
  destruct (validateEmails_for_of V scheduler c w) as (-> & _).
  destruct (for_of_spec V scheduler (fun e r => r = record_of V w0 e)
              (fun e w => loop_body_stable scheduler e w w0)
              (emailList c) [] w) as (rs & -> & HF).
  simpl. clear - HF. induction HF; simpl; congruence.
Qed.

End Stability.

(** C8. With stable checks, two runs of the batch on the same text give
    the same sequence of records, whatever state the world is in at the
    start of each run and whatever order the promises settle in: the
    records are a function of the text and of the injected checks. *)
Theorem rerun_gives_same_results {W} (V : Validators W)
  (scheduler1 scheduler2 : W -> list nat) (c1 c2 : Component) (w1 w2 : W) :
  stable V ->
  emails c1 = emails c2 ->
  results (value (validateEmails V scheduler1 c1 w1))
  = results (value (validateEmails V scheduler2 c2 w2)).
Proof.
  intros Hst Heq.
  rewrite (validateEmails_stable V Hst scheduler1 c1 w1 w1).
  rewrite (validateEmails_stable V Hst scheduler2 c2 w2 w1).
  unfold emailList. now rewrite Heq.
Qed.

(** ** The domain of an address *)

(** C6, as the code has it. The domain every check is called on is the
    second element of the address split at [@]: what follows the first
    [@] up to the next [@] or the end of the address. It is all that
    follows the first [@] when the address has exactly one [@], and it is
    undefined when the address has none. *)
Theorem domain_is_segment_after_first_at {W} (V : Validators W)
  (scheduler : W -> list nat) (e : jsstring) (w : W) (k : check)
  (d : domain_arg) :
  In (ECall k d) (trace (loop_body V scheduler e w)) ->
  d = option_map before_at (after_first_at e)
  /\ (count_at e = 1 -> d = after_first_at e)
  /\ (contains_at e = false -> d = None).
Proof.
  intros H. apply call_argument in H. subst d. split; [|split].
  - apply domain_segment.
  - apply domain_one_at.
  - apply domain_undefined.
Qed.

(** * Concrete runs *)

Lemma fan_out_called_once_and_reported_witness :
  let V := counting contains_at demo_answer in
  let scheduler := fun _ : nat => [3; 1; 4] in
  let e := of_string "user@example.com" in
  validateEmailFormat V e = true
  /\ fst (checkDomainExists V (index (split AT e) 1) 0) = true
  /\ (let d := index (split AT e) 1 in
      let w' := snd (checkDomainExists V d 0) in
      let order := completion_order fan_out (scheduler w') in
      let r := loop_body V scheduler e 0 in
      Permutation order fan_out
      /\ world r = apply_checks V d order w'
      /\ forall k, In k fan_out ->
           calls_of k (trace r) = 1
           /\ In (ECall k d) (trace r)
           /\ (forall b, In (ESettle k b) (trace r)
                         <-> check_field k (value r) = b)
           /\ exists pre post,
                order = pre ++ k :: post
                /\ check_field k (value r)
                   = fst (run_check V k d (apply_checks V d pre w'))).
Proof.
  intros V scheduler e. split; [reflexivity | split; [reflexivity|]].
  apply (fan_out_called_once_and_reported V scheduler e 0); reflexivity.
Defined.

Lemma short_circuit_when_domain_missing_witness :
  let V := counting contains_at demo_answer in
  let e := of_string "user@nonexistent-domain-xyz.test" in
  validateEmailFormat V e = true
  /\ fst (checkDomainExists V (index (split AT e) 1) 0) = false
  /\ (let r := loop_body V (fun _ => []) e 0 in
      value r = {| email := e; formatValid := true; domainExists := false;
                   mxRecords := false; spf := false; dkim := false;
                   dmarc := false; smtp := false; blacklisted := false |}
      /\ network_calls (trace r) = [ECall DomainExists (index (split AT e) 1)]
      /\ (forall k, In k fan_out -> calls_of k (trace r) = 0)
      /\ world r = snd (checkDomainExists V (index (split AT e) 1) 0)).
Proof.
  intros V e. split; [reflexivity | split; [reflexivity|]].
  apply (short_circuit_when_domain_missing V (fun _ => []) e 0);
    reflexivity.
Defined.

Lemma rejected_format_makes_no_call_witness :
  let e := of_string "bad-address" in
  validateEmailFormat demo e = false
  /\ (let r := loop_body demo (fun _ => []) e tt in
      value r = {| email := e; formatValid := false; domainExists := false;
                   mxRecords := false; spf := false; dkim := false;
                   dmarc := false; smtp := false; blacklisted := false |}
      /\ network_calls (trace r) = []
      /\ (forall k, calls_of k (trace r) = 0)
      /\ world r = tt).
Proof.
  intros e. split; [reflexivity|].
  apply (rejected_format_makes_no_call demo (fun _ => []) e tt); reflexivity.
Defined.

(** C7 as stated fails: an accepted address whose domain exists costs
    seven calls, not six at most. *)
Lemma seven_calls_for_existing_domain :
  ~ (length (network_calls
               (trace (loop_body demo (fun _ => [])
                         (of_string "user@example.com") tt))) <= 6).
Proof. vm_compute. lia. Qed.

Lemma undefined_domain_reaches_checks_witness :
  let V := counting (fun _ => true) (fun _ _ => true) in
  let scheduler := fun _ : nat => [2; 0; 1] in
  let e := of_string "bad-address" in
  contains_at e = false
  /\ validateEmailFormat V e = true
  /\ (let r := loop_body V scheduler e 0 in
      let w' := snd (checkDomainExists V None 0) in
      let order := completion_order fan_out (scheduler w') in
      In (ECall DomainExists None) (trace r)
      /\ (forall k d, In (ECall k d) (trace r) -> d = None)
      /\ formatValid (value r) = true
      /\ domainExists (value r) = fst (checkDomainExists V None 0)
      /\ world r = (if fst (checkDomainExists V None 0)
                    then apply_checks V None order w'
                    else w')
      /\ (fst (checkDomainExists V None 0) = true ->
          forall k, In k fan_out ->
          exists pre post,
            order = pre ++ k :: post
            /\ check_field k (value r)
               = fst (run_check V k None (apply_checks V None pre w')))).
Proof.
  intros V scheduler e. split; [reflexivity | split; [reflexivity|]].
  apply (undefined_domain_reaches_checks V scheduler e 0); reflexivity.
Defined.

Lemma lines_are_kept_untrimmed_witness :
  let l := of_string " user@example.com " in
  let c := fresh (lines ["   "; " user@example.com "; ""]) in
  In l (split LF (emails c))
  /\ (exists ch, In ch l /\ is_white_space ch = false)
  /\ (let r := validateEmails demo (fun _ => []) c tt in
      (exists res, In res (results (value r))
                   /\ email res = l
                   /\ formatValid res = validateEmailFormat demo l)
      /\ In (EFormat l) (trace r)
      /\ (validateEmailFormat demo l = true ->
          In (ECall DomainExists (index (split AT l) 1)) (trace r))).
Proof.
  intros l c.
  assert (H1 : In l (split LF (emails c))) by (right; left; reflexivity).
  assert (H2 : exists ch, In ch l /\ is_white_space ch = false).
  { exists 117%N. split; [right; left; reflexivity | reflexivity]. }
  split; [exact H1 | split; [exact H2|]].
  exact (lines_are_kept_untrimmed demo (fun _ => []) c tt l H1 H2).
Defined.

Lemma counting_stable fmt answer : stable (counting fmt answer).
Proof. intros [] d w w'; reflexivity. Qed.

Lemma rerun_gives_same_results_witness :
  let V := counting contains_at demo_answer in
  let c1 := fresh demo_text in
  let run1 := validateEmails V (fun _ => [3; 1; 4]) c1 0 in
  stable V
  /\ emails c1 = emails (value run1)
  /\ results (value run1)
     = results (value (validateEmails V (fun _ => []) (value run1) (world run1))).
Proof.
  intros V c1 run1.
  assert (H1 : stable V) by apply counting_stable.
  assert (H2 : emails c1 = emails (value run1)) by reflexivity.
  split; [exact H1 | split; [exact H2|]].
  exact (rerun_gives_same_results V (fun _ => [3; 1; 4]) (fun _ => [])
           c1 (value run1) 0 (world run1) H1 H2).
Defined.

(** C6 as stated fails on an accepted address with two [@]: the checks
    get what lies between the two, not all that follows the first. *)
Lemma domain_is_not_all_after_first_at :
  let e := of_string "a@b@c" in
  ~ (forall k d,
       In (ECall k d) (trace (loop_body accept_all (fun _ => []) e tt)) ->
       d = after_first_at e).
Proof.
  intros e H.
  specialize (H DomainExists (Some (of_string "b"))).
  assert (Hin : In (ECall DomainExists (Some (of_string "b")))
                   (trace (loop_body accept_all (fun _ => []) e tt)))
    by (right; left; reflexivity).
  specialize (H Hin). vm_compute in H. discriminate.
Qed.

Lemma domain_is_segment_after_first_at_witness :
  let e := of_string "a@b@c" in
  let d := Some (of_string "b") in
  In (ECall DomainExists d) (trace (loop_body accept_all (fun _ => []) e tt))
  /\ d = option_map before_at (after_first_at e)
  /\ (count_at e = 1 -> d = after_first_at e)
  /\ (contains_at e = false -> d = None).
Proof.
  intros e d.
  assert (Hin : In (ECall DomainExists d)
                   (trace (loop_body accept_all (fun _ => []) e tt)))
    by (right; left; reflexivity).
  split; [exact Hin|].
  exact (domain_is_segment_after_first_at accept_all (fun _ => []) e tt
           DomainExists d Hin).
Defined.

(** * More on the handler *)

(** ** [split] and the lines of the text *)

Lemma split_cons sep c s :
  split sep (c :: s)
  = if (c =? sep)%N then [] :: split sep s
    else match split sep s with
         | seg :: segs => (c :: seg) :: segs
         | [] => [[c]]
         end.
Proof.
  unfold split. simpl. destruct (split_segments sep s) as [seg segs].
  destruct (c =? sep)%N; reflexivity.
Qed.

Lemma split_not_nil sep s : split sep s <> [].
Proof. unfold split. destruct (split_segments sep s). discriminate. Qed.

(** No element of [s.split(sep)] contains the separator. *)
Lemma split_no_sep sep s seg : In seg (split sep s) -> ~ In sep seg.
Proof.
  revert seg. induction s as [|c s IH]; intros seg.
  - simpl. intros [<-|[]] [].
  - rewrite split_cons. destruct (c =? sep)%N eqn:E.
    + intros [<-|H]; [intros [] | now apply IH].
    + pose proof (split_not_nil sep s) as Hne.
      destruct (split sep s) as [|seg0 segs]; [congruence|].
      intros [<-|H].
      * intros [->|Hin]; [rewrite N.eqb_refl in E; discriminate|].
        apply (IH seg0); [now left | exact Hin].
      * apply IH. now right.
Qed.

(** X10. Splitting a text at a separator and joining the pieces with it
    gives the text back: the lines of line 14 lose nothing of the text
    but its newlines, and the segments of line 18 nothing of the address
    but its [@]s. *)
Lemma join_split sep s : join sep (split sep s) = s.
Proof.
  induction s as [|c s IH]; [reflexivity|].
  rewrite split_cons. pose proof (split_not_nil sep s) as Hne.
  destruct (c =? sep)%N eqn:E.
  - apply N.eqb_eq in E. subst c.
    destruct (split sep s) as [|seg0 segs]; [congruence|].
    change (join sep ([] :: seg0 :: segs)) with (sep :: join sep (seg0 :: segs)).
    now rewrite IH.
  - destruct (split sep s) as [|seg0 segs]; [congruence|].
    destruct segs as [|seg1 segs]; simpl in *; now rewrite IH.
Qed.

Lemma split_length sep s :
  length (split sep s) = S (count_occ N.eq_dec s sep).
Proof.
  induction s as [|c s IH]; [reflexivity|].
  rewrite split_cons. pose proof (split_not_nil sep s) as Hne. simpl.
  destruct (N.eq_dec c sep) as [->|Hc].
  - rewrite N.eqb_refl. simpl. now rewrite IH.
  - apply N.eqb_neq in Hc. rewrite Hc.
    destruct (split sep s) as [|seg0 segs]; [congruence|]. exact IH.
Qed.

(** Splitting the text [s1 \n s2] gives the lines of [s1], then those of
    [s2]. *)
Lemma split_app sep s1 s2 :
  split sep (s1 ++ sep :: s2) = split sep s1 ++ split sep s2.
Proof.
  induction s1 as [|c s1 IH].
  - simpl app. rewrite split_cons, N.eqb_refl. reflexivity.
  - simpl app. rewrite !split_cons. destruct (c =? sep)%N.
    + now rewrite IH.
    + rewrite IH. pose proof (split_not_nil sep s1) as Hne.
      destruct (split sep s1) as [|seg0 segs]; [congruence|]. reflexivity.
Qed.

Lemma split_incl sep s seg c : In seg (split sep s) -> In c seg -> In c s.
Proof.
  revert seg. induction s as [|a s IH]; intros seg.
  - simpl. intros [<-|[]] [].
  - rewrite split_cons. pose proof (split_not_nil sep s) as Hne.
    destruct (a =? sep)%N.
    + intros [<-|H] Hc; [destruct Hc | right; eapply IH; eauto].
    + destruct (split sep s) as [|seg0 segs]; [congruence|].
      intros [<-|H] Hc.
      * destruct Hc as [->|Hc]; [now left | right].
        apply (IH seg0); [now left | exact Hc].
      * right. apply (IH seg); [now right | exact Hc].
Qed.

Lemma emailList_blank_text c :
  forallb blank (split LF (emails c)) = true -> emailList c = [].
Proof.
  unfold emailList. intros H. rewrite forallb_forall in H.
  induction (split LF (emails c)) as [|l ls IH]; [reflexivity|].
  simpl. rewrite truthy_trim, (H l) by now left. simpl.
  apply IH. intros x Hx. apply H. now right.
Qed.

Section HandlerFacts.

Context {W : Type}.
Variable V : Validators W.
Variable scheduler : W -> list nat.

(** ** One iteration at a time *)

Lemma for_of_step e l acc w :
  let r := loop_body V scheduler e w in
  let r' := for_of V scheduler l (acc ++ [value r]) (world r) in
  for_of V scheduler (e :: l) acc w = (value r', world r', trace r ++ trace r').
Proof.
  simpl. unfold bind, value, world, trace.
  destruct (loop_body V scheduler e w) as [[r w1] t1]. simpl.
  destruct (for_of V scheduler l (acc ++ [r]) w1) as [[vr w2] t2].
  reflexivity.
Qed.

(** Records already pushed are left where they are. *)
Lemma for_of_acc l acc w :
  let r := for_of V scheduler l [] w in
  for_of V scheduler l acc w = (acc ++ value r, world r, trace r).
Proof.
  revert acc w. induction l as [|e l IH]; intros acc w.
  - simpl. unfold ret, value. simpl. now rewrite app_nil_r.
  - cbv zeta. rewrite !for_of_step. cbv zeta.
    rewrite (IH (acc ++ _)), (IH ([] ++ _)).
    unfold value, world, trace. cbn [fst snd].
    rewrite <- app_assoc. reflexivity.
Qed.

Lemma for_of_app l1 l2 w :
  let r1 := for_of V scheduler l1 [] w in
  let r2 := for_of V scheduler l2 [] (world r1) in
  for_of V scheduler (l1 ++ l2) [] w
  = (value r1 ++ value r2, world r2, trace r1 ++ trace r2).
Proof.
  revert w. induction l1 as [|e l1 IH]; intros w.
  - simpl. unfold ret, value, world, trace. simpl.
    now destruct (for_of V scheduler l2 [] w) as [[vr w2] t2].
  - cbv zeta. change ((e :: l1) ++ l2) with (e :: (l1 ++ l2)).
    rewrite !for_of_step. cbv zeta.
    rewrite (for_of_acc (l1 ++ l2)), (for_of_acc l1). cbv zeta.
    rewrite IH. unfold value, world, trace. cbn [fst snd].
    rewrite <- !app_assoc. reflexivity.
Qed.

(** Every event of the loop is an event of one of its iterations. *)
Lemma for_of_trace_inv l acc w ev :
  In ev (trace (for_of V scheduler l acc w)) ->
  exists e w', In e l /\ In ev (trace (loop_body V scheduler e w')).
Proof.
  revert acc w. induction l as [|e l IH]; intros acc w.
  - simpl. intros [].
  - rewrite for_of_step. cbv zeta. unfold trace at 1. cbn [snd].
    rewrite in_app_iff. intros [H|H].
    + exists e, w. split; [now left | exact H].
    + destruct (IH _ _ H) as (e' & w' & Hin & Hev).
      exists e', w'. split; [now right | exact Hev].
Qed.

Lemma loop_body_format_events e w :
  filter is_format (trace (loop_body V scheduler e w)) = [EFormat e].
Proof.
  destruct (validateEmailFormat V e) eqn:Hf.
  - destruct (checkDomainExists V (index (split AT e) 1) w) as [[|] w'] eqn:E.
    + rewrite (loop_body_exists V scheduler e w _ Hf E).
      unfold trace. cbn [snd]. rewrite !filter_app.
      replace (filter is_format (map settle_event _)) with (@nil event).
      * reflexivity.
      * symmetry. generalize (value (settle_all V (index (split AT e) 1)
                     (completion_order fan_out (scheduler w')) w')).
        intros out. induction out as [|p out IH]; [reflexivity | exact IH].
    + rewrite (loop_body_no_domain V scheduler e w _ Hf E). reflexivity.
  - rewrite (loop_body_invalid V scheduler e w Hf). reflexivity.
Qed.

Lemma loop_body_cost e w :
  length (network_calls (trace (loop_body V scheduler e w)))
  = record_cost (value (loop_body V scheduler e w)).
Proof.
  destruct (validateEmailFormat V e) eqn:Hf.
  - destruct (checkDomainExists V (index (split AT e) 1) w) as [[|] w'] eqn:E.
    + rewrite (loop_body_exists V scheduler e w _ Hf E).
      unfold trace, value, network_calls. cbn [fst snd]. rewrite !filter_app.
      fold (network_calls
              (map settle_event
                 (fst (fst (settle_all V (index (split AT e) 1)
                              (completion_order fan_out (scheduler w')) w'))))).
      rewrite no_network_calls_in_settles. reflexivity.
    + rewrite (loop_body_no_domain V scheduler e w _ Hf E). reflexivity.
  - rewrite (loop_body_invalid V scheduler e w Hf). reflexivity.
Qed.

Lemma network_calls_app t1 t2 :
  network_calls (t1 ++ t2) = network_calls t1 ++ network_calls t2.
Proof. apply filter_app. Qed.

Lemma for_of_cons e l w :
  let r := loop_body V scheduler e w in
  let r' := for_of V scheduler l [] (world r) in
  value (for_of V scheduler (e :: l) [] w) = value r :: value r'
  /\ world (for_of V scheduler (e :: l) [] w) = world r'
  /\ trace (for_of V scheduler (e :: l) [] w) = trace r ++ trace r'.
Proof.
  cbv zeta. rewrite for_of_step. cbv zeta. rewrite for_of_acc. cbv zeta.
  repeat split.
Qed.

Lemma for_of_cost l w :
  length (network_calls (trace (for_of V scheduler l [] w)))
  = list_sum (map record_cost (value (for_of V scheduler l [] w))).
Proof.
  revert w. induction l as [|e l IH]; intros w; [reflexivity|].
  destruct (for_of_cons e l w) as (-> & _ & ->).
  rewrite network_calls_app, length_app, loop_body_cost, IH.
  reflexivity.
Qed.

End HandlerFacts.

(** ** Counting the checks the handler applies *)

Section Counting.

Context {W : Type}.
Variable V : Validators W.
Variable scheduler : W -> list nat.

Lemma run_check_instrument k d w n :
  run_check (instrument V) k d (w, n)
  = (fst (run_check V k d w), (snd (run_check V k d w), S n)).
Proof.
  destruct k; cbn [run_check instrument checkDomainExists checkMXRecords
                   checkSPF checkDKIM checkDMARC checkSMTP checkBlacklists];
    unfold counted; cbn [fst snd];
    match goal with |- context [?f V d w] => destruct (f V d w) end;
    reflexivity.
Qed.

Lemma settle_all_instrument d order w n :
  let s := settle_all V d order w in
  settle_all (instrument V) d order (w, n)
  = (value s, (world s, n + length order), trace s).
Proof.
  revert w n. induction order as [|k order IH]; intros w n.
  - simpl. unfold ret, value, world, trace. simpl. now rewrite Nat.add_0_r.
  - cbv zeta. simpl. unfold bind, settle_one, ret.
    rewrite run_check_instrument.
    destruct (run_check V k d w) as [b w1]. cbn [fst snd].
    rewrite IH. cbv zeta.
    destruct (settle_all V d order w1) as [[out w2] t].
    unfold value, world, trace. cbn [fst snd].
    now rewrite Nat.add_succ_r.
Qed.

Lemma completion_order_length pending choices :
  length (completion_order pending choices) = length pending.
Proof. apply Permutation_length, completion_order_perm. Qed.

(** Counting changes nothing but the counter, and the counter moves by
    the cost of the record. *)
Lemma loop_body_instrument e w n :
  let r := loop_body V scheduler e w in
  loop_body (instrument V) (lift_scheduler scheduler) e (w, n)
  = (value r, (world r, n + record_cost (value r)), trace r).
Proof.
  cbv zeta.
  destruct (validateEmailFormat V e) eqn:Hf.
  - pose proof (run_check_instrument DomainExists (index (split AT e) 1) w n)
      as Hi. cbn [run_check] in Hi.
    destruct (checkDomainExists V (index (split AT e) 1) w) as [[|] w'] eqn:E;
      cbn [fst snd] in Hi.
    + rewrite (loop_body_exists (instrument V) (lift_scheduler scheduler)
                 e (w, n) (w', S n) Hf Hi).
      rewrite (loop_body_exists V scheduler e w w' Hf E).
      unfold lift_scheduler. cbn [fst]. rewrite settle_all_instrument.
      cbv zeta. rewrite completion_order_length.
      unfold value, world, trace, record_cost. cbn [fst snd formatValid
        domainExists length fan_out].
      replace (S n + 6) with (n + 7) by lia. reflexivity.
    + rewrite (loop_body_no_domain (instrument V) (lift_scheduler scheduler)
                 e (w, n) (w', S n) Hf Hi).
      rewrite (loop_body_no_domain V scheduler e w w' Hf E).
      unfold value, world, trace, record_cost. cbn [fst snd formatValid
        domainExists skipped].
      replace (n + 1) with (S n) by lia. reflexivity.
  - rewrite (loop_body_invalid (instrument V) (lift_scheduler scheduler)
               e (w, n) Hf).
    rewrite (loop_body_invalid V scheduler e w Hf).
    unfold value, world, trace, record_cost. cbn [fst snd formatValid
      domainExists skipped].
    rewrite Nat.add_0_r. reflexivity.
Qed.

Lemma for_of_instrument l acc w n :
  let f := for_of V scheduler l acc w in
  for_of (instrument V) (lift_scheduler scheduler) l acc (w, n)
  = (value f, (world f, n + length (network_calls (trace f))), trace f).
Proof.
  revert acc w n. induction l as [|e l IH]; intros acc w n.
  - simpl. unfold ret, value, world, trace. simpl. now rewrite Nat.add_0_r.
  - cbv zeta. simpl for_of. unfold bind.
    pose proof (loop_body_instrument e w n) as Ei. cbv zeta in Ei.
    pose proof (loop_body_cost V scheduler e w) as Hc.
    destruct (loop_body V scheduler e w) as [[r w1] t1].
    unfold value, world, trace in Ei, Hc. cbn [fst snd] in Ei, Hc.
    rewrite Ei.
    specialize (IH (acc ++ [r]) w1 (n + record_cost r)). cbv zeta in IH.
    rewrite IH.
    destruct (for_of V scheduler l (acc ++ [r]) w1) as [[vr w2] t2].
    unfold value, world, trace. cbn [fst snd].
    rewrite network_calls_app, length_app, Hc, Nat.add_assoc. reflexivity.
Qed.

Lemma loop_body_record_cost e w :
  record_cost (value (loop_body V scheduler e w))
  = if validateEmailFormat V e
    then if fst (checkDomainExists V (index (split AT e) 1) w) then 7 else 1
    else 0.
Proof.
  destruct (validateEmailFormat V e) eqn:Hf.
  - destruct (checkDomainExists V (index (split AT e) 1) w) as [[|] w'] eqn:E.
    + rewrite (loop_body_exists V scheduler e w w' Hf E). reflexivity.
    + rewrite (loop_body_no_domain V scheduler e w w' Hf E). reflexivity.
  - rewrite (loop_body_invalid V scheduler e w Hf). reflexivity.
Qed.

Lemma validateEmails_instrument c w n :
  let r := validateEmails V scheduler c w in
  validateEmails (instrument V) (lift_scheduler scheduler) c (w, n)
  = (value r,
     (world r, n + list_sum (map record_cost (results (value r)))),
     trace r).
Proof.
  cbv zeta. unfold validateEmails, bind, ret.
  rewrite for_of_instrument. cbv zeta.
  pose proof (for_of_cost V scheduler (emailList c) w) as Hc.
  destruct (for_of V scheduler (emailList c) [] w) as [[vr w2] t2].
  unfold value, world, trace in *. cbn [fst snd results] in *.
  rewrite !app_nil_r, Hc. reflexivity.
Qed.

End Counting.

(** C7, as the code has it. The number of awaited checks called for one
    address is 0 when the format is rejected, 1 when the domain does not
    exist, and 7 otherwise (the existence check and the six of the
    fan-out): never more than seven.  This is the number of calls seen in
    the trace, and it is the number of times the handler applies a check:
    run on checks that count their own applications, the handler gives
    the same record and trace, does the same to the world, and moves the
    counter by exactly that number. *)
Theorem network_calls_per_address {W} (V : Validators W)
  (scheduler : W -> list nat) (e : jsstring) (w : W) (n : nat) :
  let r := loop_body V scheduler e w in
  let counted_run :=
    loop_body (instrument V) (lift_scheduler scheduler) e (w, n) in
  let cost :=
    if validateEmailFormat V e
    then if fst (checkDomainExists V (index (split AT e) 1) w) then 7 else 1
    else 0 in
  length (network_calls (trace r)) = cost
  /\ length (network_calls (trace r)) <= 7
  /\ value counted_run = value r
  /\ trace counted_run = trace r
  /\ world counted_run = (world r, n + cost).
Proof.
  cbv zeta. rewrite loop_body_instrument. cbv zeta.
  rewrite loop_body_cost, loop_body_record_cost.
  repeat split.
  destruct (validateEmailFormat V e);
    [destruct (fst (checkDomainExists V (index (split AT e) 1) w))|]; lia.
Qed.

(** X5. The number of awaited checks a batch calls can be read off its
    records: 0 for a record with formatValid false, 1 for one with
    domainExists false, 7 for the others; so it is at most seven times
    the number of records.  This is the number of calls seen in the
    trace, and it is the number of times the handler applies a check:
    run on checks that count their own applications, the handler gives
    the same state and trace, does the same to the world, and moves the
    counter by exactly that number. *)
Theorem network_calls_read_off_records {W} (V : Validators W)
  (scheduler : W -> list nat) (c : Component) (w : W) (n : nat) :
  let r := validateEmails V scheduler c w in
  let counted_run :=
    validateEmails (instrument V) (lift_scheduler scheduler) c (w, n) in
  let total := list_sum (map record_cost (results (value r))) in
  length (network_calls (trace r)) = total
  /\ length (network_calls (trace r)) <= 7 * length (results (value r))
  /\ value counted_run = value r
  /\ trace counted_run = trace r
  /\ world counted_run = (world r, n + total).
Proof.
  cbv zeta. rewrite validateEmails_instrument. cbv zeta.
  destruct (validateEmails_for_of V scheduler c w) as (-> & _ & -> & _).
  rewrite (for_of_cost V scheduler).
  repeat split.
  induction (value (for_of V scheduler (emailList c) [] w)) as [|r rs IH];
    simpl; [lia|].
  assert (record_cost r <= 7)
    by (unfold record_cost; destruct (formatValid r), (domainExists r); lia).
  lia.
Qed.


Section HandlerProperties.

Context {W : Type}.
Variable V : Validators W.
Variable scheduler : W -> list nat.

(** X1. Within the checks of one address, a check of the fan-out is never
    called before the format checker has been called on the address, the
    existence check has been called on the same domain, and its promise
    has resolved to true. *)
Theorem fan_out_waits_for_existence e w k d pre post :
  In k fan_out ->
  trace (loop_body V scheduler e w) = pre ++ ECall k d :: post ->
  In (EFormat e) pre
  /\ In (ECall DomainExists d) pre
  /\ In (ESettle DomainExists true) pre.
Proof.
  intros Hk Htr.
  assert (Hd : d = index (split AT e) 1).
  { apply (call_argument V scheduler e w k). rewrite Htr.
    apply in_or_app. right. now left. }
  assert (Hne : k <> DomainExists).
  { intros ->. simpl in Hk. intuition discriminate. }
  destruct (validateEmailFormat V e) eqn:Hf.
  - destruct (checkDomainExists V (index (split AT e) 1) w) as [[|] w'] eqn:E.
    + rewrite (loop_body_exists V scheduler e w _ Hf E) in Htr.
      unfold trace in Htr. cbn [snd app] in Htr. rewrite <- Hd in Htr.
      destruct pre as [|a [|b [|c pre]]]; cbn [app] in Htr;
        try (injection Htr as H1 H2; congruence);
        try (injection Htr as H1 H2 H3; congruence).
      injection Htr as <- <- <- _. simpl. tauto.
    + rewrite (loop_body_no_domain V scheduler e w _ Hf E) in Htr.
      unfold trace in Htr. cbn [snd] in Htr.
      destruct pre as [|a [|b [|c pre]]]; cbn [app] in Htr;
        try (injection Htr as H1 H2; congruence);
        try (injection Htr as H1 H2 H3; congruence).
      injection Htr as _ _ _ H. destruct pre; discriminate.
  - rewrite (loop_body_invalid V scheduler e w Hf) in Htr.
    unfold trace in Htr. cbn [snd] in Htr.
    destruct pre as [|a pre]; cbn [app] in Htr; [discriminate|].
    injection Htr as _ H. destruct pre; discriminate.
Qed.

Lemma loop_body_exists_valid e w :
  domainExists (value (loop_body V scheduler e w)) = true ->
  formatValid (value (loop_body V scheduler e w)) = true.
Proof.
  destruct (validateEmailFormat V e) eqn:Hf.
  - intros _. rewrite <- Hf. apply loop_body_email.
  - rewrite (loop_body_invalid V scheduler e w Hf). discriminate.
Qed.

(** X2. No record of a batch reports an existing domain for an address
    whose format was rejected: domainExists true entails formatValid
    true. *)
Theorem existing_domain_has_valid_format c w :
  Forall (fun r => domainExists r = true -> formatValid r = true)
         (results (value (validateEmails V scheduler c w))).
Proof.
  destruct (validateEmails_for_of V scheduler c w) as (-> & _).
  destruct (for_of_spec V scheduler
              (fun _ r => domainExists r = true -> formatValid r = true)
              loop_body_exists_valid (emailList c) [] w) as (rs & -> & HF).
  simpl. eapply Forall2_Forall_right. exact HF.
Qed.

(** X3. No check of a batch is ever called on a domain that contains an
    [@] or a newline. *)
Theorem domains_have_no_at_no_newline c w k d :
  In (ECall k (Some d)) (trace (validateEmails V scheduler c w)) ->
  ~ In AT d /\ ~ In LF d.
Proof.
  destruct (validateEmails_for_of V scheduler c w) as (_ & _ & -> & _).
  intros H. apply for_of_trace_inv in H.
  destruct H as (e & w' & He & Hev).
  apply call_argument in Hev. symmetry in Hev.
  unfold index in Hev. apply nth_error_In in Hev.
  split.
  - now apply (split_no_sep AT e).
  - intros HLF. apply (split_incl AT e d LF Hev) in HLF.
    unfold emailList in He. apply filter_In in He. destruct He as [He _].
    now apply (split_no_sep LF (emails c) e).
Qed.

(** X4. In a batch the format checker is called exactly once for each
    line that is not blank, on that line, in the order of the lines; it is
    not called on blank lines. *)
Theorem format_checked_once_per_line c w :
  filter is_format (trace (validateEmails V scheduler c w))
  = map EFormat (filter (fun l => negb (blank l)) (split LF (emails c))).
Proof.
  destruct (validateEmails_for_of V scheduler c w) as (_ & _ & -> & _).
  replace (filter (fun l => negb (blank l)) (split LF (emails c)))
    with (emailList c)
    by (unfold emailList; apply filter_ext; intros l; apply truthy_trim).
  generalize (emailList c) (@nil ValidationResult). intros l.
  revert w. induction l as [|e l IH]; intros w acc; [reflexivity|].
  rewrite for_of_step. cbv zeta. unfold trace at 1. cbn [snd].
  rewrite filter_app, loop_body_format_events, IH. reflexivity.
Qed.

(** X6. On a text all of whose lines are blank (the empty text is one)
    the handler pushes no record, calls nothing and leaves the world as
    it was. *)
Theorem blank_text_does_nothing c w :
  forallb blank (split LF (emails c)) = true ->
  validateEmails V scheduler c w
  = ({| emails := emails c; results := []; isValidating := false |}, w, []).
Proof.
  intros H. unfold validateEmails.
  rewrite (emailList_blank_text c H). reflexivity.
Qed.

Lemma emailList_app c c1 c2 :
  emails c = emails c1 ++ LF :: emails c2 ->
  emailList c = emailList c1 ++ emailList c2.
Proof.
  unfold emailList. intros ->. now rewrite split_app, filter_app.
Qed.

(** X7. A batch on the text [s1 \n s2] is the batch on [s1] followed by
    the batch on [s2], run in the world the first one leaves: the records,
    the trace and the final world are those of the two runs in a row. *)
Theorem batch_of_joined_texts c c1 c2 w :
  emails c = emails c1 ++ LF :: emails c2 ->
  let r := validateEmails V scheduler c w in
  let r1 := validateEmails V scheduler c1 w in
  let r2 := validateEmails V scheduler c2 (world r1) in
  results (value r) = results (value r1) ++ results (value r2)
  /\ trace r = trace r1 ++ trace r2
  /\ world r = world r2.
Proof.
  intros Hc. cbv zeta.
  destruct (validateEmails_for_of V scheduler c w) as (-> & -> & -> & _).
  destruct (validateEmails_for_of V scheduler c1 w) as (-> & -> & -> & _).
  destruct (validateEmails_for_of V scheduler c2
              (world (for_of V scheduler (emailList c1) [] w)))
    as (-> & -> & -> & _).
  rewrite (emailList_app c c1 c2 Hc), for_of_app. cbv zeta.
  repeat split.
Qed.

Lemma results_emails c w :
  map email (results (value (validateEmails V scheduler c w))) = emailList c.
Proof.
  destruct (validateEmails_for_of V scheduler c w) as (-> & _).
  destruct (for_of_spec V scheduler (fun e r => email r = e)
              (fun e w => proj1 (loop_body_email V scheduler e w))
              (emailList c) [] w) as (rs & -> & HF).
  simpl. apply (Forall2_map_right email _ _ HF).
Qed.

(** X8. A text with n newlines gives at most n + 1 records. *)
Theorem records_bounded_by_newlines c w :
  length (results (value (validateEmails V scheduler c w)))
  <= S (count_LF (emails c)).
Proof.
  rewrite <- (length_map email), (results_emails c w).
  unfold emailList, count_LF. rewrite <- split_length.
  apply filter_length_le.
Qed.

(** X9. The email field of every record of a batch is a line of the
    text: it has no newline in it, and it is not blank. *)
Theorem emails_are_non_blank_lines c w :
  Forall (fun r => In (email r) (split LF (emails c))
                   /\ ~ In LF (email r)
                   /\ blank (email r) = false)
         (results (value (validateEmails V scheduler c w))).
Proof.
  apply Forall_forall. intros r Hr.
  assert (He : In (email r) (emailList c)).
  { rewrite <- (results_emails c w). now apply in_map. }
  unfold emailList in He. apply filter_In in He. destruct He as [Hl Ht].
  rewrite truthy_trim in Ht. split; [exact Hl | split].
  - now apply (split_no_sep LF (emails c)).
  - now destruct (blank (email r)).
Qed.

End HandlerProperties.

(** * The page *)

Lemma StatusIcon_inj b b' : StatusIcon b = StatusIcon b' -> b = b'.
Proof. destruct b, b'; intros H; try reflexivity; discriminate. Qed.

Lemma td_icon_inj b b' : td_icon b = td_icon b' -> b = b'.
Proof. destruct b, b'; intros H; try reflexivity; discriminate. Qed.

Lemma td_text_inj s s' : td_text s = td_text s' -> s = s'.
Proof. unfold td_text. now intros [= ->]. Qed.

Lemma render_row_inj r r' i i' :
  render_row r i = render_row r' i' -> r = r' /\ i = i'.
Proof.
  intros H.
  pose proof (f_equal node_attrs H) as Hi.
  pose proof (f_equal (fun n => nth 0 (node_children n) (Text [])) H) as He.
  pose proof (f_equal (fun n => nth 1 (node_children n) (Text [])) H) as Hf.
  pose proof (f_equal (fun n => nth 2 (node_children n) (Text [])) H) as Hd.
  pose proof (f_equal (fun n => nth 3 (node_children n) (Text [])) H) as Hmx.
  pose proof (f_equal (fun n => nth 4 (node_children n) (Text [])) H) as Hspf.
  pose proof (f_equal (fun n => nth 5 (node_children n) (Text [])) H) as Hdkim.
  pose proof (f_equal (fun n => nth 6 (node_children n) (Text [])) H) as Hdmarc.
  pose proof (f_equal (fun n => nth 7 (node_children n) (Text [])) H) as Hsmtp.
  pose proof (f_equal (fun n => nth 8 (node_children n) (Text [])) H) as Hbl.
  clear H. unfold render_row in *. cbn [node_attrs node_children nth] in *.
  apply td_icon_inj in Hf, Hmx, Hspf, Hdkim, Hdmarc, Hsmtp.
  apply td_text_inj in Hd, Hbl.
  injection Hi as Hi. injection He as He.
  assert (Hd' : domainExists r = domainExists r')
    by (destruct (domainExists r), (domainExists r');
        try reflexivity; discriminate).
  assert (Hbl' : blacklisted r = blacklisted r')
    by (destruct (blacklisted r), (blacklisted r');
        try reflexivity; discriminate).
  destruct r, r'. simpl in *. subst. split; reflexivity.
Qed.

Lemma map_index_inj rs rs' i :
  map_index render_row i rs = map_index render_row i rs' -> rs = rs'.
Proof.
  revert rs' i. induction rs as [|r rs IH]; intros [|r' rs'] i H;
    try reflexivity; try discriminate.
  pose proof (f_equal (hd (Text [])) H) as Hr.
  pose proof (f_equal (@tl node) H) as Hrs.
  cbn [map_index hd tl] in Hr, Hrs.
  apply render_row_inj in Hr. destruct Hr as [-> _].
  f_equal. exact (IH _ _ Hrs).
Qed.

Lemma map_index_length {A B} (f : A -> nat -> B) i a :
  length (map_index f i a) = length a.
Proof. revert i. induction a as [|x a IH]; intros i; simpl; auto. Qed.

Lemma rows_tr i rs :
  filter (tag_is "tr") (flat_map descendants (map_index render_row i rs))
  = map_index render_row i rs.
Proof.
  revert i. induction rs as [|r rs IH]; intros i; [reflexivity|].
  cbn [map_index flat_map]. rewrite filter_app, IH. reflexivity.
Qed.

Lemma rows_not_clickable i rs :
  flat_map on_click (flat_map descendants (map_index render_row i rs)) = [].
Proof.
  revert i. induction rs as [|r rs IH]; intros i; [reflexivity|].
  cbn [map_index flat_map]. rewrite flat_map_app, IH. reflexivity.
Qed.

Lemma rows_attrs i rs a :
  In a (flat_map node_attrs
          (flat_map descendants (map_index render_row i rs))) ->
  (exists s, a = className s) \/ (exists k, a = key k).
Proof.
  revert i. induction rs as [|r rs IH]; intros i; [intros []|].
  cbn [map_index flat_map]. rewrite flat_map_app, in_app_iff.
  intros [H|H]; [|exact (IH _ H)].
  unfold render_row, td_icon, td_text, StatusIcon in H.
  cbn [descendants flat_map app node_attrs] in H.
  repeat (destruct H as [<-|H]; [eauto|]). destruct H.
Qed.

Lemma elements_tr c :
  elements "tr" (render c)
  = match results c with
    | [] => []
    | _ :: _ => header_row :: map_index render_row 0 (results c)
    end.
Proof.
  unfold elements, render.
  destruct (isValidating c), (results c) as [|r rs]; try reflexivity.
  all: cbn [length Nat.ltb Nat.leb when app]; unfold render_table.
  all: cbn [descendants flat_map app filter tag_is String.eqb Ascii.eqb
            Bool.eqb th map header_row].
  all: rewrite !app_nil_r, rows_tr; reflexivity.
Qed.

Lemma clickable_render c :
  clickable (render c)
  = (if isValidating c then [] else [HValidateEmails])
    ++ match results c with [] => [] | _ :: _ => [HDownloadResults] end.
Proof.
  unfold clickable, render.
  destruct (isValidating c), (results c) as [|r rs]; try reflexivity.
  all: cbn [length Nat.ltb Nat.leb when app]; unfold render_table.
  all: cbn [descendants flat_map app th map header_row on_click is_disabled
            existsb node_attrs orb].
  all: rewrite ?app_nil_r, rows_not_clickable; reflexivity.
Qed.

Lemma page_attrs_render c a :
  In a (page_attrs (render c)) ->
  a = value_attr (emails c) \/ a = disabled (isValidating c)
  \/ a = onChange HSetEmails \/ a = onClick HValidateEmails
  \/ a = onClick HDownloadResults
  \/ (exists s, a = className s) \/ (exists s, a = placeholder s)
  \/ (exists k, a = key k).
Proof.
  unfold page_attrs, render.
  destruct (isValidating c), (results c) as [|r rs].
  all: cbn [length Nat.ltb Nat.leb when app]; unfold render_table.
  all: cbn [descendants flat_map app node_attrs th map header_row].
  all: rewrite ?app_nil_r, ?in_app_iff; intros H.
  all: repeat (destruct H as [<-|H]; [eauto 10|]).
  all: try (destruct H; fail).
  all: apply rows_attrs in H; tauto.
Qed.

(** X11. The table has no row when there is no record; otherwise its
    rows are the row of column titles followed by one row per record, in
    the order of the records, keyed by position; and every row has as
    many cells as there are column titles. *)
Theorem table_has_a_row_per_record c :
  elements "tr" (render c)
  = match results c with
    | [] => []
    | _ :: _ => header_row :: map_index render_row 0 (results c)
    end
  /\ Forall (fun tr => length (node_children tr)
                       = length (node_children header_row))
            (elements "tr" (render c)).
Proof.
  split; [apply elements_tr|].
  rewrite elements_tr. destruct (results c) as [|r rs]; [constructor|].
  constructor; [reflexivity|].
  generalize (r :: rs) 0. intros l.
  induction l as [|x l IH]; intros i; constructor; [reflexivity | apply IH].
Qed.

(** X12. The page shows the whole state of the component: two states
    that render to the same page are the same state. *)
Theorem page_shows_whole_state c1 c2 : render c1 = render c2 -> c1 = c2.
Proof.
  intros H.
  pose proof (f_equal
    (fun p => nth 1 (node_attrs (child 1 (child 1 (child 0 (child 0 p)))))
                  (key 0)) H) as He.
  pose proof (f_equal
    (fun p => nth 1 (node_attrs (child 0 (child 2 (child 0 (child 0 p)))))
                  (key 0)) H) as Hv.
  pose proof (f_equal (elements "tr") H) as Hr.
  clear H. rewrite !elements_tr in Hr.
  unfold render, child in He, Hv.
  cbn [node_children nth app node_attrs] in He, Hv.
  injection He as He. injection Hv as Hv.
  assert (Hrs : results c1 = results c2).
  { destruct (results c1) as [|r1 rs1], (results c2) as [|r2 rs2];
      try reflexivity; try discriminate.
    pose proof (f_equal (@tl node) Hr) as Ht. cbn [tl] in Ht.
    exact (map_index_inj _ _ _ Ht). }
  destruct c1, c2. simpl in *. now subst.
Qed.

(** X13. A click on the page starts [validateEmails] exactly when no
    validation is running (the button is disabled meanwhile), and
    [downloadResults] exactly when there is at least one record, also
    while a validation is running; no other click starts a handler. *)
Theorem download_offered_iff_records c :
  clickable (render c)
  = (if isValidating c then [] else [HValidateEmails])
    ++ (if (0 <? length (results c))%nat then [HDownloadResults] else []).
Proof.
  rewrite clickable_render. now destruct (results c).
Qed.

Section PageAfterValidation.

Context {W : Type}.
Variable V : Validators W.
Variable scheduler : W -> list nat.

(** X14. When the handler is done, whatever text the text area holds by
    then, no control of the page is disabled, a click can start a new
    validation, and the download is offered exactly when the text the
    handler was run on has a line that is not blank. *)
Theorem page_after_validation c w t :
  let r := validateEmails V scheduler c w in
  let page := render {| emails := t;
                        results := results (value r);
                        isValidating := isValidating (value r) |} in
  ~ In (disabled true) (page_attrs page)
  /\ In HValidateEmails (clickable page)
  /\ (In HDownloadResults (clickable page)
      <-> exists l, In l (split LF (emails c)) /\ blank l = false).
Proof.
  cbv zeta.
  destruct (validateEmails_for_of V scheduler c w) as (_ & _ & _ & _ & Hv).
  pose proof (results_emails V scheduler c w) as Hr.
  rewrite Hv. set (rs := results (value (validateEmails V scheduler c w))) in *.
  split; [|split].
  - intros H. apply page_attrs_render in H. cbn [emails isValidating] in H.
    decompose [or ex] H; discriminate.
  - rewrite clickable_render. cbn [isValidating]. now left.
  - rewrite clickable_render. cbn [isValidating results app]. split.
    + intros H. destruct rs as [|r rs'] eqn:E.
      * simpl in H. destruct H as [H|[]]. discriminate.
      * exists (email r).
        assert (Hin : In (email r) (emailList c))
          by (rewrite <- Hr; now left).
        unfold emailList in Hin. apply filter_In in Hin.
        destruct Hin as [Hl Ht]. rewrite truthy_trim in Ht.
        split; [exact Hl | now destruct (blank (email r))].
    + intros (l & Hl & Hb).
      assert (Hin : In l (emailList c)).
      { unfold emailList. apply filter_In. split; [exact Hl|].
        now rewrite truthy_trim, Hb. }
      rewrite <- Hr in Hin. destruct rs as [|r rs']; [destruct Hin|].
      simpl. auto.
Qed.

(** X15. A record of a batch whose domain was not found, or not looked
    for because the format was rejected, is shown like one whose every
    later check failed: domain "Available", five red icons and
    blacklisted "No". *)
Theorem unchecked_shown_as_failed c w r i :
  In r (results (value (validateEmails V scheduler c w))) ->
  domainExists r = false ->
  skipn 2 (node_children (render_row r i))
  = [td_text (of_string "Available");
     td_icon false; td_icon false; td_icon false; td_icon false;
     td_icon false; td_text (of_string "No")].
Proof.
  intros Hr Hd.
  assert (Hsc : short_circuited r).
  { destruct (validateEmails_for_of V scheduler c w) as (E & _).
    rewrite E in Hr.
    destruct (for_of_spec V scheduler (fun _ r => short_circuited r)
                (loop_body_short_circuited V scheduler) (emailList c) [] w)
      as (rs & Hv & HF).
    rewrite Hv in Hr. simpl in Hr.
    apply Forall2_Forall_right in HF. rewrite Forall_forall in HF. auto. }
  destruct (Hsc (or_intror Hd)) as (H1 & H2 & H3 & H4 & H5 & H6).
  unfold render_row. cbn [node_children skipn].
  now rewrite Hd, H1, H2, H3, H4, H5, H6.
Qed.

End PageAfterValidation.

(** * Concrete runs of the further properties *)

Lemma fan_out_waits_for_existence_witness :
  let e := of_string "user@example.com" in
  let d := Some (of_string "example.com") in
  let tr := trace (loop_body demo (fun _ => [3; 1; 4]) e tt) in
  let pre := firstn 4 tr in
  let post := skipn 5 tr in
  In SPF fan_out
  /\ tr = pre ++ ECall SPF d :: post
  /\ In (EFormat e) pre
  /\ In (ECall DomainExists d) pre
  /\ In (ESettle DomainExists true) pre.
Proof.
  intros e d tr pre post.
  assert (H1 : In SPF fan_out) by (right; left; reflexivity).
  assert (H2 : tr = pre ++ ECall SPF d :: post) by reflexivity.
  split; [exact H1 | split; [exact H2|]].
  exact (fan_out_waits_for_existence demo (fun _ => [3; 1; 4]) e tt SPF d
           pre post H1 H2).
Defined.

Lemma domains_have_no_at_no_newline_witness :
  let c := fresh demo_text in
  let d := of_string "example.com" in
  In (ECall MXRecords (Some d))
     (trace (validateEmails demo (fun _ => []) c tt))
  /\ ~ In AT d /\ ~ In LF d.
Proof.
  intros c d.
  assert (H : In (ECall MXRecords (Some d))
                 (trace (validateEmails demo (fun _ => []) c tt)))
    by (do 4 right; left; reflexivity).
  split; [exact H|].
  exact (domains_have_no_at_no_newline demo (fun _ => []) c tt MXRecords d H).
Defined.

Lemma blank_text_does_nothing_witness :
  let c := {| emails := lines ["  "; ""; "   "];
              results := [skipped (of_string "old") false];
              isValidating := false |} in
  forallb blank (split LF (emails c)) = true
  /\ validateEmails accept_all (fun _ => []) c tt
     = ({| emails := emails c; results := []; isValidating := false |}, tt, []).
Proof.
  intros c.
  assert (H : forallb blank (split LF (emails c)) = true) by reflexivity.
  split; [exact H|].
  exact (blank_text_does_nothing accept_all (fun _ => []) c tt H).
Defined.

Lemma batch_of_joined_texts_witness :
  let V := counting contains_at demo_answer in
  let sched := fun _ : nat => [3; 1; 4] in
  let c1 := fresh (lines ["bad-address"; "user@example.com"]) in
  let c2 := fresh (of_string "user@nonexistent-domain-xyz.test") in
  let c := fresh (lines ["bad-address"; "user@example.com";
                         "user@nonexistent-domain-xyz.test"]) in
  emails c = emails c1 ++ LF :: emails c2
  /\ (let r := validateEmails V sched c 0 in
      let r1 := validateEmails V sched c1 0 in
      let r2 := validateEmails V sched c2 (world r1) in
      results (value r) = results (value r1) ++ results (value r2)
      /\ trace r = trace r1 ++ trace r2
      /\ world r = world r2).
Proof.
  intros V sched c1 c2 c.
  assert (H : emails c = emails c1 ++ LF :: emails c2) by reflexivity.
  split; [exact H|].
  exact (batch_of_joined_texts V sched c c1 c2 0 H).
Defined.

Lemma page_shows_whole_state_witness :
  let c1 := value (validateEmails demo (fun _ => [3; 1; 4])
                     (fresh demo_text) tt) in
  let c2 := value (validateEmails demo (fun _ => []) (fresh demo_text) tt) in
  render c1 = render c2 /\ c1 = c2.
Proof.
  intros c1 c2.
  assert (H : render c1 = render c2) by reflexivity.
  split; [exact H|].
  exact (page_shows_whole_state c1 c2 H).
Defined.

Lemma unchecked_shown_as_failed_witness :
  let c := fresh demo_text in
  let r := skipped (of_string "bad-address") false in
  In r (results (value (validateEmails demo (fun _ => []) c tt)))
  /\ domainExists r = false
  /\ skipn 2 (node_children (render_row r 0))
     = [td_text (of_string "Available");
        td_icon false; td_icon false; td_icon false; td_icon false;
        td_icon false; td_text (of_string "No")].
Proof.
  intros c r.
  assert (H1 : In r (results (value (validateEmails demo (fun _ => []) c tt))))
    by (left; reflexivity).
  assert (H2 : domainExists r = false) by reflexivity.
  split; [exact H1 | split; [exact H2|]].
  exact (unchecked_shown_as_failed demo (fun _ => []) c tt r 0 H1 H2).
Defined.

Example seven_applications_counted :
  world (loop_body (instrument demo) (lift_scheduler (fun _ => [3; 1; 4]))
           (of_string "user@example.com") (tt, 0))
  = (tt, 7).
Proof. reflexivity. Qed.

Example no_second_validation_while_validating :
  clickable (render {| emails := demo_text;
                       results := run_demo [];
                       isValidating := true |})
  = [HDownloadResults].
Proof. reflexivity. Qed.
